(** * opencode-allowlist: the allowlist plugin of src/index.ts

    A shallow embedding of the plugin (config discovery, config merge,
    path authorization, the [permission.ask] hook and the listing tool)
    together with the parts of the JavaScript run time it relies on:
    JavaScript values as far as [JSON.parse] and the host produce them,
    exceptions, and the POSIX flavour of Node's [path] module. *)

From Stdlib Require Import Floats.SpecFloat ZArith String Ascii List Bool Lia
  Permutation.
From Equations Require Import Equations.
Import ListNotations.

Open Scope string_scope.
Open Scope Z_scope.

(** ** JavaScript values *)

(** The values [JSON.parse] returns, plus [undefined] (a missing
    property, an absent metadata field).  Numbers are IEEE 754 doubles.
    A string is its sequence of code units; the code only slices strings,
    compares them and looks for the code units of '/' and '.', so the
    width of a unit plays no role. *)
#[warnings="-register-all"]
Inductive jsval : Type :=
| JUndefined
| JNull
| JBool (b : bool)
| JNum (x : spec_float)
| JStr (s : string)
| JArr (elems : list jsval)
| JObj (props : list (string * jsval)).

(** What a [throw] or a rejected promise carries. *)
Inductive error : Type :=
| TypeError
| SyntaxError
| SystemError.

Inductive result (A : Type) : Type :=
| Ok (a : A)
| Throw (e : error).
Arguments Ok {A} a.
Arguments Throw {A} e.

(** ToBoolean. *)
Definition truthy (v : jsval) : bool :=
  match v with
  | JUndefined | JNull => false
  | JBool b => b
  | JNum (S754_zero _) | JNum S754_nan => false
  | JNum _ => true
  | JStr s => negb (String.eqb s "")
  | JArr _ | JObj _ => true
  end.

(** [a || b] *)
Definition js_or (a b : jsval) : jsval := if truthy a then a else b.

Fixpoint own_property (name : string) (props : list (string * jsval)) : jsval :=
  match props with
  | [] => JUndefined
  | (k, v) :: rest => if String.eqb k name then v else own_property name rest
  end.

(** [v.name] for a name that no prototype defines ([allowedDirectories],
    [parentDir], [filepath]): the own property of an object, [undefined]
    on every other value that has properties, a TypeError on [null] and
    [undefined]. *)
Definition get_member (v : jsval) (name : string) : result jsval :=
  match v with
  | JUndefined | JNull => Throw TypeError
  | JObj props => Ok (own_property name props)
  | _ => Ok JUndefined
  end.

(** [v?.name] *)
Definition get_member_opt (v : jsval) (name : string) : jsval :=
  match v with
  | JObj props => own_property name props
  | _ => JUndefined
  end.

(** ** Node's [path] module, POSIX variant (lib/path.js)

    The module is not part of the repository; the definitions below follow
    Node's implementation statement by statement. *)
Module NodePath.

Definition CHAR_FORWARD_SLASH : ascii := "/"%char.
Definition CHAR_DOT : ascii := "."%char.

Definition isPosixPathSeparator (code : ascii) : bool :=
  Ascii.eqb code CHAR_FORWARD_SLASH.

(** [s.charCodeAt(i) === c] (false out of range, where charCodeAt is NaN) *)
Definition charCodeAt_is (s : string) (i : Z) (c : ascii) : bool :=
  if i <? 0 then false
  else match String.get (Z.to_nat i) s with
       | Some d => Ascii.eqb d c
       | None => false
       end.

Definition strlen (s : string) : Z := Z.of_nat (String.length s).

(** [s.slice(from, to)] *)
Definition slice (s : string) (from to : Z) : string :=
  let len := strlen s in
  let clamp k := if k <? 0 then Z.max (len + k) 0 else Z.min k len in
  let a := clamp from in
  let b := clamp to in
  String.substring (Z.to_nat a) (Z.to_nat (Z.max (b - a) 0)) s.

(** [s.lastIndexOf("/")] *)
Fixpoint lastIndexOf_slash_from (s : string) (i : Z) : Z :=
  match s with
  | EmptyString => -1
  | String c rest =>
      let later := lastIndexOf_slash_from rest (i + 1) in
      if 0 <=? later then later
      else if isPosixPathSeparator c then i else -1
  end.

Definition lastIndexOf_slash (s : string) : Z := lastIndexOf_slash_from s 0.

(** The local variables of [normalizeString]. *)
Record ns_vars : Type := {
  res : string;
  lastSegmentLength : Z;
  lastSlash : Z;
  dots : Z;
  code : ascii
}.

(** One pass through the body of the [for] loop of [normalizeString], at
    index [i].  The [break] can only fire at [i = path.length], the last
    iteration, where it leaves the variables as they are; both [continue]
    statements come right after [lastSlash = i; dots = 0]. *)
Definition normalizeString_body (path : string) (allowAboveRoot : bool)
    (v : ns_vars) (i : Z) : ns_vars :=
  let at_end := negb (i <? strlen path) in
  if at_end && isPosixPathSeparator (code v) then v
  else
    let code :=
      if at_end then CHAR_FORWARD_SLASH
      else match String.get (Z.to_nat i) path with
           | Some c => c
           | None => code v
           end in
    if isPosixPathSeparator code then
      if (lastSlash v =? i - 1) || (dots v =? 1) then
        {| res := res v; lastSegmentLength := lastSegmentLength v;
           lastSlash := i; dots := 0; code := code |}
      else if dots v =? 2 then
        let r := res v in
        let not_dotdot :=
          (strlen r <? 2) || negb (lastSegmentLength v =? 2)
          || negb (charCodeAt_is r (strlen r - 1) CHAR_DOT)
          || negb (charCodeAt_is r (strlen r - 2) CHAR_DOT) in
        if not_dotdot && (2 <? strlen r) then
          let lastSlashIndex := lastIndexOf_slash r in
          if lastSlashIndex =? -1 then
            {| res := ""; lastSegmentLength := 0;
               lastSlash := i; dots := 0; code := code |}
          else
            let r' := slice r 0 lastSlashIndex in
            {| res := r';
               lastSegmentLength := strlen r' - 1 - lastIndexOf_slash r';
               lastSlash := i; dots := 0; code := code |}
        else if not_dotdot && negb (strlen r =? 0) then
          {| res := ""; lastSegmentLength := 0;
             lastSlash := i; dots := 0; code := code |}
        else if allowAboveRoot then
          {| res := if 0 <? strlen r then r ++ "/.." else "..";
             lastSegmentLength := 2;
             lastSlash := i; dots := 0; code := code |}
        else
          {| res := r; lastSegmentLength := lastSegmentLength v;
             lastSlash := i; dots := 0; code := code |}
      else
        let segment := slice path (lastSlash v + 1) i in
        {| res := if 0 <? strlen (res v) then res v ++ "/" ++ segment
                  else segment;
           lastSegmentLength := i - lastSlash v - 1;
           lastSlash := i; dots := 0; code := code |}
    else if Ascii.eqb code CHAR_DOT && negb (dots v =? -1) then
      {| res := res v; lastSegmentLength := lastSegmentLength v;
         lastSlash := lastSlash v; dots := dots v + 1; code := code |}
    else
      {| res := res v; lastSegmentLength := lastSegmentLength v;
         lastSlash := lastSlash v; dots := -1; code := code |}.

(** [for (let i = 0; i <= path.length; ++i)] *)
Definition normalizeString (path : string) (allowAboveRoot : bool) : string :=
  res (fold_left (normalizeString_body path allowAboveRoot)
         (map Z.of_nat (seq 0 (S (String.length path))))
         {| res := ""; lastSegmentLength := 0; lastSlash := -1; dots := 0;
            code := Ascii.zero |}).

Definition isAbsolute (path : string) : bool :=
  charCodeAt_is path 0 CHAR_FORWARD_SLASH.

(** [path.normalize] *)
Definition normalize (path : string) : string :=
  if strlen path =? 0 then "."
  else
    let trailingSeparator :=
      charCodeAt_is path (strlen path - 1) CHAR_FORWARD_SLASH in
    let p := normalizeString path (negb (isAbsolute path)) in
    if strlen p =? 0 then
      if isAbsolute path then "/"
      else if trailingSeparator then "./" else "."
    else
      let p := if trailingSeparator then p ++ "/" else p in
      if isAbsolute path then "/" ++ p else p.

(** The loop of [path.join] over its arguments; [None] is a [joined] that
    is still [undefined]. *)
Fixpoint join_loop (args : list string) (joined : option string)
  : option string :=
  match args with
  | [] => joined
  | arg :: rest =>
      if 0 <? strlen arg then
        join_loop rest
          (Some match joined with
                | None => arg
                | Some j => j ++ "/" ++ arg
                end)
      else join_loop rest joined
  end.

(** [path.join(...args)], all of whose arguments are strings here *)
Definition join (args : list string) : string :=
  match join_loop args None with
  | None => "."
  | Some joined => normalize joined
  end.

(** The backwards scan of [path.dirname], from index [i] down to 1; the
    result is [end]. *)
Fixpoint dirname_scan (path : string) (i : nat) (matchedSlash : bool) : Z :=
  match i with
  | O => -1
  | S i' =>
      if charCodeAt_is path (Z.of_nat i) CHAR_FORWARD_SLASH then
        if matchedSlash then dirname_scan path i' matchedSlash
        else Z.of_nat i
      else dirname_scan path i' false
  end.

(** [path.dirname(path)] *)
Definition dirname (path : string) : string :=
  if strlen path =? 0 then "."
  else
    let hasRoot := isAbsolute path in
    let end_ := dirname_scan path (String.length path - 1) true in
    if end_ =? -1 then (if hasRoot then "/" else ".")
    else if hasRoot && (end_ =? 1) then "//"
    else slice path 0 end_.

Section Resolve.

(** [process.cwd()] *)
Variable cwd : string.

(** The loop of [path.resolve], from the last argument towards the first
    and then the working directory ([i = -1]), until the path built so
    far is absolute.  [validateString] throws on an argument that is not
    a string. *)
Fixpoint resolve_loop (rev_args : list jsval) (resolvedPath : string)
  : result (string * bool) :=
  match rev_args with
  | [] =>
      if strlen cwd =? 0 then Ok (resolvedPath, false)
      else Ok (cwd ++ "/" ++ resolvedPath, isAbsolute cwd)
  | JStr path :: rest =>
      if strlen path =? 0 then resolve_loop rest resolvedPath
      else
        let resolvedPath := path ++ "/" ++ resolvedPath in
        if isAbsolute path then Ok (resolvedPath, true)
        else resolve_loop rest resolvedPath
  | _ :: _ => Throw TypeError
  end.

(** [path.resolve(...args)] *)
Definition resolve (args : list jsval) : result string :=
  match resolve_loop (rev args) "" with
  | Throw e => Throw e
  | Ok (resolvedPath, resolvedAbsolute) =>
      let p := normalizeString resolvedPath (negb resolvedAbsolute) in
      if resolvedAbsolute then Ok ("/" ++ p)
      else Ok (if 0 <? strlen p then p else ".")
  end.

End Resolve.

End NodePath.

(** ** Exceptions and state *)

(** A computation over a store [S] that returns or throws.  An [await]ed
    promise is run to completion at the point of the [await], and a call
    of the plugin is run to its end before the next one starts. *)
Definition M (S A : Type) : Type := S -> result A * S.

Definition ret {S A} (a : A) : M S A := fun st => (Ok a, st).

Definition bind {S A B} (m : M S A) (k : A -> M S B) : M S B :=
  fun st =>
    match m st with
    | (Ok a, st') => k a st'
    | (Throw e, st') => (Throw e, st')
    end.

(** [try { body } catch (e) { handler }] *)
Definition try_catch {S A} (body : M S A) (handler : error -> M S A) : M S A :=
  fun st =>
    match body st with
    | (Ok a, st') => (Ok a, st')
    | (Throw e, st') => handler e st'
    end.

(** A pure step that may throw. *)
Definition lift {S A} (r : result A) : M S A := fun st => (r, st).

Declare Scope js_scope.
Delimit Scope js_scope with js.
Notation "x <- m ;; k" := (bind m (fun x => k))
  (at level 100, m at next level, right associativity) : js_scope.
Notation "m ;;; k" := (bind m (fun _ => k))
  (at level 100, right associativity) : js_scope.
Open Scope js_scope.

(** [for (const x of xs) acc = body(acc, x)] *)
Fixpoint for_of {S A B} (xs : list A) (body : B -> A -> M S B) (acc : B)
  : M S B :=
  match xs with
  | [] => ret acc
  | x :: rest => acc' <- body acc x ;; for_of rest body acc'
  end.

(** ** The world the plugin runs in *)

(** What the two [fs] calls of the plugin observe: [fs.access(p)] resolves
    exactly when [exists_ p]; [fs.readFile(p, "utf-8")] resolves with
    [contents p], or rejects when that is [None]. *)
Record FileSystem : Type := {
  exists_ : string -> bool;
  contents : string -> option string
}.

(** The lines written through [log.info] and [log.error], by the template
    they come from and the values interpolated. *)
Inductive message : Type :=
| NoConfigFound
| LoadedFrom (n : nat) (configPath : string)
| ErrorReading (configPath : string) (e : error)
| TotalUnique (n : nat)
| PermissionRequestType (type : string)
| SkippingNonExternal (type : string)
| AutoAllowing (requestedDir : jsval)
| NotInAllowedList (requestedDir : jsval).

Inductive event : Type :=
| EvAccess (p : string)
| EvReadFile (p : string)
| EvLogInfo (m : message)
| EvLogError (m : message).

(** The plugin's closure variable [cachedDirs], the file system, and the
    file-system calls and log lines so far (oldest first). *)
Record state : Type := {
  cachedDirs : option (list jsval);
  fs : FileSystem;
  trace : list event
}.

Definition emit (e : event) : M state unit :=
  fun st =>
    (Ok tt, {| cachedDirs := cachedDirs st; fs := fs st;
               trace := (trace st ++ [e])%list |}).

Definition log_info (m : message) : M state unit := emit (EvLogInfo m).
Definition log_error (m : message) : M state unit := emit (EvLogError m).

(** [await fs.access(p)] *)
Definition fs_access (p : string) : M state unit :=
  emit (EvAccess p) ;;;
  fun st => (if exists_ (fs st) p then Ok tt else Throw SystemError, st).

(** [await fs.readFile(p, "utf-8")] *)
Definition fs_readFile (p : string) : M state string :=
  emit (EvReadFile p) ;;;
  fun st => (match contents (fs st) p with
             | Some content => Ok content
             | None => Throw SystemError
             end, st).

Definition get_cachedDirs : M state (option (list jsval)) :=
  fun st => (Ok (cachedDirs st), st).

Definition set_cachedDirs (dirs : list jsval) : M state unit :=
  fun st =>
    (Ok tt, {| cachedDirs := Some dirs; fs := fs st; trace := trace st |}).

(** ** [Set] *)

(** SameValueZero between a value about to be added and a member of the
    set.  An array or object that [JSON.parse] has just built is a fresh
    reference, identical to no member. *)
Definition sameValueZero (a b : jsval) : bool :=
  match a, b with
  | JUndefined, JUndefined => true
  | JNull, JNull => true
  | JBool x, JBool y => Bool.eqb x y
  | JNum S754_nan, JNum S754_nan => true
  | JNum x, JNum y => SFeqb x y
  | JStr x, JStr y => String.eqb x y
  | _, _ => false
  end.

(** [set.add(v)] on a set kept as the list of its members in insertion
    order, the order [Array.from] and iteration see; [-0] is stored as
    [+0]. *)
Definition Set_add (set : list jsval) (v : jsval) : list jsval :=
  let v :=
    match v with
    | JNum (S754_zero _) => JNum (S754_zero false)
    | _ => v
    end in
  if existsb (sameValueZero v) set then set else (set ++ [v])%list.

(** [dirs.forEach((dir) => allDirs.add(dir))]: only an array has a
    [forEach] to call. *)
Definition forEach_add (dirs : jsval) (allDirs : list jsval)
  : result (list jsval) :=
  match dirs with
  | JArr elems => Ok (fold_left Set_add elems allDirs)
  | _ => Throw TypeError
  end.

(** [dirs.length] of an array *)
Definition array_length (dirs : jsval) : nat :=
  match dirs with
  | JArr elems => List.length elems
  | _ => O
  end.

(** ** The plugin *)

(** The object the host hands to [permission.ask] as [input]; of its
    fields the hook reads [type] and [metadata]. *)
Record Permission : Type := {
  type : string;
  metadata : jsval
}.

(** The [output] object of [permission.ask]. *)
Record Output : Type := {
  status : string
}.

(** What [listAllowedDirectories.execute] answers, by template. *)
Inductive listing : Type :=
| NoAllowedDirectories
| ConfiguredDirectories (dirs : list jsval).

(** How far [path.dirname] can still climb from [p]: [dirname] leaves only
    "/" and "." in place, and shortens every path of two or more
    characters. *)
Definition climb (p : string) : nat :=
  (String.length p
   + if String.eqb p "/" || String.eqb p "." then 0 else 2)%nat.

Lemma substring_length (s : string) (n m : nat) :
  (n + m <= String.length s)%nat ->
  String.length (String.substring n m s) = m.
Proof.
  revert n m. induction s as [|c s IH]; intros n m H; simpl in *.
  - destruct n, m; simpl; try reflexivity; lia.
  - destruct n as [|n].
    + destruct m as [|m]; simpl; [reflexivity|]. f_equal. apply IH. simpl. lia.
    + apply IH. lia.
Qed.

(** The scan of [dirname] stops, if at all, below the index it started
    from when it started on trailing slashes, and at or below it
    otherwise. *)
Lemma dirname_scan_bound (path : string) (i : nat) (matchedSlash : bool) :
  let e := NodePath.dirname_scan path i matchedSlash in
  e = -1 \/
  (1 <= e /\ e <= Z.of_nat i /\ (matchedSlash = true -> e < Z.of_nat i)).
Proof.
  revert matchedSlash. induction i as [|i IH]; intros m; cbn zeta.
  - left. reflexivity.
  - cbn [NodePath.dirname_scan].
    destruct (NodePath.charCodeAt_is path (Z.of_nat (S i)) _).
    + destruct m.
      * destruct (IH true) as [->|(H1 & H2 & H3)]; [now left|right]. lia.
      * right. lia.
    + destruct (IH false) as [->|(H1 & H2 & H3)]; [now left|right]. lia.
Qed.

Lemma dirname_shorter (p : string) :
  (2 <= String.length p)%nat ->
  (1 <= String.length (NodePath.dirname p) < String.length p)%nat.
Proof.
  intros Hlen. unfold NodePath.dirname, NodePath.strlen.
  destruct (Z.eqb_spec (Z.of_nat (String.length p)) 0) as [E|_]; [lia|].
  pose proof (dirname_scan_bound p (String.length p - 1) true) as Hb.
  cbn zeta in Hb.
  set (e := NodePath.dirname_scan p (String.length p - 1) true) in *.
  destruct (Z.eqb_spec e (-1)) as [E|NE].
  - destruct (NodePath.isAbsolute p); simpl; lia.
  - destruct Hb as [Hb|(H1 & H2 & H3)]; [contradiction|].
    specialize (H3 eq_refl).
    destruct (NodePath.isAbsolute p && (e =? 1)) eqn:Hroot.
    + simpl. apply andb_prop in Hroot. destruct Hroot as [_ He].
      apply Z.eqb_eq in He. lia.
    + unfold NodePath.slice, NodePath.strlen.
      replace (0 <? 0) with false by reflexivity.
      destruct (Z.ltb_spec e 0) as [?|_]; [lia|].
      rewrite substring_length; lia.
Qed.

Lemma dirname_short (p : string) :
  (String.length p <= 1)%nat ->
  NodePath.dirname p = (if String.eqb p "/" then "/" else ".").
Proof.
  destruct p as [|c [|d p]]; simpl; intros H; try lia.
  - reflexivity.
  - unfold NodePath.dirname, NodePath.isAbsolute, NodePath.charCodeAt_is.
    simpl. unfold NodePath.CHAR_FORWARD_SLASH.
    destruct (Ascii.eqb_spec c "/"%char) as [->|N]; [reflexivity|].
    reflexivity.
Qed.

(** Every step of the ancestor walk that moves, moves closer to a fixed
    point of [dirname]. *)
Lemma dirname_climb (p : string) :
  NodePath.dirname p <> p ->
  (climb (NodePath.dirname p) < climb p)%nat.
Proof.
  intros Hne. unfold climb.
  destruct (le_lt_dec (String.length p) 1) as [Hs|Hl].
  - pose proof (dirname_short p Hs) as E. rewrite E in Hne |- *. clear E.
    destruct (String.eqb_spec p "/") as [E1|N1]; [congruence|].
    destruct (String.eqb_spec p ".") as [E2|N2]; [congruence|].
    simpl. lia.
  - pose proof (dirname_shorter p ltac:(lia)) as H.
    destruct (String.eqb (NodePath.dirname p) "/"
              || String.eqb (NodePath.dirname p) ".");
      destruct (String.eqb_spec p "/") as [E1|N1];
      destruct (String.eqb_spec p ".") as [E2|N2];
      try rewrite E1 in *; try rewrite E2 in *; simpl in *; lia.
Qed.

Section Plugin.

(** [JSON.parse]: the value of a JSON text, [None] where it throws its
    SyntaxError. *)
Variable JSON_parse : string -> option jsval.

(** [process.cwd()] *)
Variable cwd : string.

(** [process.env.HOME] and [process.env.USERPROFILE] *)
Variable env_HOME env_USERPROFILE : option string.

(** The plugin's input, [{ directory, worktree }]. *)
Variable directory worktree : string.

(** [a || b] for an environment variable [a], which is a string or
    undefined. *)
Definition env_or (a : option string) (b : string) : string :=
  match a with
  | Some s => if String.eqb s "" then b else s
  | None => b
  end.

(** [try { await fs.access(p); configFiles.push(p) } catch {}] *)
Definition push_if_exists (configFiles : list string) (p : string)
  : M state (list string) :=
  try_catch
    (fs_access p ;;; ret (configFiles ++ [p])%list)
    (fun _ => ret configFiles).

(** The [while (true)] loop of [findConfigFiles]. *)
Equations? search_up (currentDir : string) (configFiles : list string)
    (st : state) : result (list string) * state
  by wf (climb currentDir) lt :=
  search_up currentDir configFiles st :=
    let configPath :=
      NodePath.join [currentDir; ".opencode"; "opencode-allowlist.json"] in
    match push_if_exists configFiles configPath st with
    | (Throw e, st') => (Throw e, st')
    | (Ok configFiles, st') =>
        if String.eqb currentDir worktree then (Ok configFiles, st')
        else
          match string_dec (NodePath.dirname currentDir) currentDir with
          | left _ => (Ok configFiles, st')
          | right _ => search_up (NodePath.dirname currentDir) configFiles st'
          end
    end.
Proof. apply dirname_climb. assumption. Qed.

Definition findConfigFiles : M state (list string) :=
  let configFiles := [] in
  let homeDir := env_or env_HOME (env_or env_USERPROFILE "~") in
  let globalConfigPaths :=
    [ NodePath.join [homeDir; ".config"; "opencode"; "opencode-allowlist.json"];
      NodePath.join [homeDir; ".local"; "share"; "opencode"; "config";
                     "opencode-allowlist.json"] ] in
  configFiles <- for_of globalConfigPaths push_if_exists configFiles ;;
  search_up directory configFiles.

(** The body of the [for] loop over the config files.  [allDirs] is
    passed along: whatever throws inside the [try] does so before the
    first [add], so the handler finds the set as it was. *)
Definition load_config (allDirs : list jsval) (configPath : string)
  : M state (list jsval) :=
  try_catch
    (content <- fs_readFile configPath ;;
     config <- lift (match JSON_parse content with
                     | Some v => Ok v
                     | None => Throw SyntaxError
                     end) ;;
     allowed <- lift (get_member config "allowedDirectories") ;;
     let dirs := js_or allowed (JArr []) in
     allDirs <- lift (forEach_add dirs allDirs) ;;
     (if (0 <? array_length dirs)%nat
      then log_info (LoadedFrom (array_length dirs) configPath)
      else ret tt) ;;;
     ret allDirs)
    (fun e => log_error (ErrorReading configPath e) ;;; ret allDirs).

Definition getAllowedDirectories : M state (list jsval) :=
  cached <- get_cachedDirs ;;
  match cached with
  | Some dirs => ret dirs
  | None =>
      configFiles <- findConfigFiles ;;
      let allDirs := [] in
      if (List.length configFiles =? 0)%nat then
        log_info NoConfigFound ;;;
        set_cachedDirs [] ;;;
        ret []
      else
        allDirs <- for_of configFiles load_config allDirs ;;
        set_cachedDirs allDirs ;;;
        log_info (TotalUnique (List.length allDirs)) ;;;
        ret allDirs
  end.

Fixpoint isPathAllowed (requestedPath : jsval) (allowedDirs : list jsval)
  : result bool :=
  match allowedDirs with
  | [] => Ok false
  | allowedDir :: rest =>
      match NodePath.resolve cwd [allowedDir] with
      | Throw e => Throw e
      | Ok normalizedAllowed =>
          match NodePath.resolve cwd [requestedPath] with
          | Throw e => Throw e
          | Ok normalizedRequested =>
              if String.prefix normalizedAllowed normalizedRequested
              then Ok true
              else isPathAllowed requestedPath rest
          end
      end
  end.

(** A step of the plugin inside the hook, which also holds [output]. *)
Definition in_plugin {A} (m : M state A) : M (state * Output) A :=
  fun '(st, output) =>
    let '(r, st') := m st in (r, (st', output)).

(** [output.status = s] *)
Definition set_status (s : string) : M (state * Output) unit :=
  fun '(st, output) => (Ok tt, (st, {| status := s |})).

(** [input.metadata?.parentDir || input.metadata?.filepath] *)
Definition requested_dir (input : Permission) : jsval :=
  js_or (get_member_opt (metadata input) "parentDir")
        (get_member_opt (metadata input) "filepath").

(** The ["permission.ask"] hook. *)
Definition permission_ask (input : Permission) : M (state * Output) unit :=
  in_plugin (log_info (PermissionRequestType (type input))) ;;;
  if negb (String.eqb (type input) "external_directory") then
    in_plugin (log_info (SkippingNonExternal (type input)))
  else
    let requestedDir := requested_dir input in
    if negb (truthy requestedDir) then ret tt
    else
      allowedDirs <- in_plugin getAllowedDirectories ;;
      allowed <- lift (isPathAllowed requestedDir allowedDirs) ;;
      if (allowed : bool) then
        in_plugin (log_info (AutoAllowing requestedDir)) ;;;
        set_status "allow"
      else
        in_plugin (log_info (NotInAllowedList requestedDir)).

(** [listAllowedDirectories.execute()] *)
Definition listAllowedDirectories : M state listing :=
  dirs <- getAllowedDirectories ;;
  if (List.length dirs =? 0)%nat then ret NoAllowedDirectories
  else ret (ConfiguredDirectories dirs).

End Plugin.

(** * Vocabulary of the statements *)

(** [st] after the events [evs] *)
Definition logged (st : state) (evs : list event) : state :=
  {| cachedDirs := cachedDirs st; fs := fs st;
     trace := (trace st ++ evs)%list |}.

(** [st] after the events [evs], with [dirs] in the cache *)
Definition cached_as (st : state) (dirs : list jsval) (evs : list event)
  : state :=
  {| cachedDirs := Some dirs; fs := fs st; trace := (trace st ++ evs)%list |}.

(** [path.resolve(p)] of a string [p]: the call cannot throw, see
    [resolve_string]. *)
Definition resolved (cwd p : string) : string :=
  match NodePath.resolve cwd [JStr p] with
  | Ok s => s
  | Throw _ => p
  end.

(** The file the ancestor walk tests in the directory [dir]. *)
Definition config_path (dir : string) : string :=
  NodePath.join [dir; ".opencode"; "opencode-allowlist.json"].

(** The two fixed global candidates of [findConfigFiles]. *)
Definition global_config_paths (env_HOME env_USERPROFILE : option string)
  : list string :=
  let homeDir := env_or env_HOME (env_or env_USERPROFILE "~") in
  [ NodePath.join [homeDir; ".config"; "opencode"; "opencode-allowlist.json"];
    NodePath.join [homeDir; ".local"; "share"; "opencode"; "config";
                   "opencode-allowlist.json"] ].

(** [Climb worktree dir dirs]: [dirs] are the directories from [dir]
    upwards, each the [path.dirname] of the one before, ending at the first
    that is the boundary [worktree] or, failing that, is its own parent. *)
Inductive Climb (worktree : string) : string -> list string -> Prop :=
| Climb_boundary (dir : string) :
    dir = worktree -> Climb worktree dir [dir]
| Climb_root (dir : string) :
    dir <> worktree -> NodePath.dirname dir = dir -> Climb worktree dir [dir]
| Climb_parent (dir : string) (dirs : list string) :
    dir <> worktree -> NodePath.dirname dir <> dir ->
    Climb worktree (NodePath.dirname dir) dirs ->
    Climb worktree dir (dir :: dirs).

Section Vocabulary.

Variable JSON_parse : string -> option jsval.

(** What the [try] block of the loop gets out of the file [configPath]:
    the elements of [dirs], or the error it stops with. *)
Definition read_dirs (fsys : FileSystem) (configPath : string)
  : result (list jsval) :=
  match contents fsys configPath with
  | None => Throw SystemError
  | Some content =>
      match JSON_parse content with
      | None => Throw SyntaxError
      | Some config =>
          match get_member config "allowedDirectories" with
          | Throw e => Throw e
          | Ok allowed =>
              match js_or allowed (JArr []) with
              | JArr elems => Ok elems
              | _ => Throw TypeError
              end
          end
      end
  end.

(** The entries a config file adds to the set. *)
Definition contribution (fsys : FileSystem) (configPath : string)
  : list jsval :=
  match read_dirs fsys configPath with
  | Ok elems => elems
  | Throw _ => []
  end.

(** The read and the log line of one turn of the loop. *)
Definition load_events (fsys : FileSystem) (configPath : string)
  : list event :=
  EvReadFile configPath ::
  match read_dirs fsys configPath with
  | Ok elems =>
      if (0 <? List.length elems)%nat
      then [EvLogInfo (LoadedFrom (List.length elems) configPath)]
      else []
  | Throw e => [EvLogError (ErrorReading configPath e)]
  end.

(** The set after the files [configFiles], from the set [allDirs]. *)
Definition merged (fsys : FileSystem) (configFiles : list string)
    (allDirs : list jsval) : list jsval :=
  fold_left (fun set p => fold_left Set_add (contribution fsys p) set)
    configFiles allDirs.

End Vocabulary.

(** The files read, in order. *)
Fixpoint reads_of (evs : list event) : list string :=
  match evs with
  | [] => []
  | EvReadFile p :: rest => p :: reads_of rest
  | _ :: rest => reads_of rest
  end.

(** The files tested for existence, in order. *)
Fixpoint accesses_of (evs : list event) : list string :=
  match evs with
  | [] => []
  | EvAccess p :: rest => p :: accesses_of rest
  | _ :: rest => accesses_of rest
  end.

(** The strings among the members of a set. *)
Fixpoint strings_of (set : list jsval) : list string :=
  match set with
  | [] => []
  | JStr s :: rest => s :: strings_of rest
  | _ :: rest => strings_of rest
  end.

(** The variables of [normalizeString] before its loop, and after the
    first [n] turns of the loop on [path]. *)
Definition ns_init : NodePath.ns_vars :=
  {| NodePath.res := ""; NodePath.lastSegmentLength := 0;
     NodePath.lastSlash := -1; NodePath.dots := 0;
     NodePath.code := Ascii.zero |}.

Definition ns_run (path : string) (allowAboveRoot : bool) (n : nat)
  : NodePath.ns_vars :=
  fold_left (NodePath.normalizeString_body path allowAboveRoot)
    (map Z.of_nat (seq 0 n)) ns_init.

(** [add] of a string, seen on the strings of the set. *)
Definition add_string (set : list string) (s : string) : list string :=
  if in_dec string_dec s set then set else (set ++ [s])%list.

(** ** Scenarios

    A small world to run the plugin in. *)

Module Scenario.

(** A string between quotation marks (code unit 34). *)
Definition quoted (s : string) : string :=
  String (ascii_of_nat 34) (s ++ String (ascii_of_nat 34) "").

(** The text of a config file whose [allowedDirectories] array has the
    text [entries] between its brackets. *)
Definition config_text (entries : string) : string :=
  "{" ++ quoted "allowedDirectories" ++ ":[" ++ entries ++ "]}".

Definition config_value (elems : list jsval) : jsval :=
  JObj [("allowedDirectories", JArr elems)].

(** The double 42. *)
Definition forty_two : spec_float := S754_finite false 5910974510923776 (-47).

(** [JSON.parse] on the texts the scenarios use; "{oops" and every other
    text is taken as malformed. *)
Definition JSON_parse (text : string) : option jsval :=
  if String.eqb text (config_text (quoted "/w/projects")) then
    Some (config_value [JStr "/w/projects"])
  else if String.eqb text (config_text (quoted "/srv/shared")) then
    Some (config_value [JStr "/srv/shared"])
  else if String.eqb text
            (config_text (quoted "/srv/shared" ++ "," ++ quoted "/w/projects"))
  then Some (config_value [JStr "/srv/shared"; JStr "/w/projects"])
  else if String.eqb text (config_text "42") then
    Some (config_value [JNum forty_two])
  else if String.eqb text (config_text "") then Some (config_value [])
  else if String.eqb text ("{" ++ quoted "allowedDirectories" ++ ":42}") then
    Some (JObj [("allowedDirectories", JNum forty_two)])
  else if String.eqb text "{}" then Some (JObj [])
  else None.

(** A file system holding the readable files [files], path and text. *)
Definition disk (files : list (string * string)) : FileSystem :=
  {| exists_ := fun p => existsb (fun f => String.eqb (fst f) p) files;
     contents := fun p =>
       option_map snd (find (fun f => String.eqb (fst f) p) files) |}.

(** The plugin just loaded, on the files [files]. *)
Definition fresh (files : list (string * string)) : state :=
  {| cachedDirs := None; fs := disk files; trace := [] |}.

Definition global_config : string :=
  "/home/u/.config/opencode/opencode-allowlist.json".
Definition worktree_config : string :=
  "/w/app/.opencode/opencode-allowlist.json".
Definition local_config : string :=
  "/w/app/src/.opencode/opencode-allowlist.json".

(** An [external_directory] request for the file [p]. *)
Definition request (p : string) : Permission :=
  {| type := "external_directory"; metadata := JObj [("filepath", JStr p)] |}.

(** The hook of a plugin started in /w/app/src of the worktree /w/app,
    HOME being /home/u. *)
Definition ask (input : Permission) (st : state) (output : Output)
  : result unit * (state * Output) :=
  permission_ask JSON_parse "/w/app/src" (Some "/home/u") None
    "/w/app/src" "/w/app" input (st, output).

End Scenario.

(** * Properties *)

(** ** The store *)

Lemma logged_nil (st : state) : logged st [] = st.
Proof. destruct st. unfold logged. simpl. now rewrite app_nil_r. Qed.

Lemma logged_logged (st : state) (a b : list event) :
  logged (logged st a) b = logged st (a ++ b)%list.
Proof. unfold logged. simpl. now rewrite app_assoc. Qed.

Lemma emit_logged (e : event) (st : state) :
  emit e st = (Ok tt, logged st [e]).
Proof. reflexivity. Qed.

(** Unfolds the monad down to the store. *)
Ltac run :=
  unfold fs_access, fs_readFile, log_info, log_error;
  unfold bind, ret, lift, try_catch, emit, get_cachedDirs,
    set_cachedDirs;
  cbn [fst snd cachedDirs fs trace].

(** Closes an equation between two runs once the stores differ only in
    how the appended events are grouped. *)
Ltac store_eq :=
  unfold logged; cbn; rewrite <- ?app_assoc; cbn; reflexivity.

(** ** Path authorization *)

Lemma prefix_append (a b : string) :
  String.prefix a b = true <-> exists suffix, b = a ++ suffix.
Proof.
  revert b. induction a as [|c a IH]; intros b; simpl.
  - split; [intros _; now exists b | intros _; now destruct b].
  - destruct b as [|d b]; cbn [String.prefix].
    + split; [discriminate | intros [s H]; discriminate].
    + destruct (ascii_dec c d) as [->|N].
      * rewrite IH. split; intros [s H]; exists s; simpl in *; congruence.
      * split; [discriminate | intros [s H]; simpl in H; congruence].
Qed.

Lemma prefix_refl (a : string) : String.prefix a a = true.
Proof.
  apply prefix_append. exists "". induction a; simpl; congruence.
Qed.

Lemma resolve_string (cwd p : string) :
  NodePath.resolve cwd [JStr p] = Ok (resolved cwd p).
Proof.
  unfold resolved, NodePath.resolve. simpl.
  destruct (NodePath.strlen p =? 0).
  - destruct (NodePath.strlen cwd =? 0); [reflexivity|].
    destruct (NodePath.isAbsolute cwd); reflexivity.
  - destruct (NodePath.isAbsolute p); [reflexivity|].
    destruct (NodePath.strlen cwd =? 0); [reflexivity|].
    destruct (NodePath.isAbsolute cwd); reflexivity.
Qed.

Lemma resolve_not_string (cwd : string) (v : jsval) :
  (forall s, v <> JStr s) -> NodePath.resolve cwd [v] = Throw TypeError.
Proof.
  intros H. unfold NodePath.resolve. simpl.
  destruct v; try reflexivity. now destruct (H s).
Qed.

(** One turn of the loop of [isPathAllowed] on a string entry. *)
Lemma isPathAllowed_cons (cwd P d : string) (rest : list jsval) :
  isPathAllowed cwd (JStr P) (JStr d :: rest) =
  if String.prefix (resolved cwd d) (resolved cwd P) then Ok true
  else isPathAllowed cwd (JStr P) rest.
Proof.
  cbn [isPathAllowed]. now rewrite !resolve_string.
Qed.

Lemma isPathAllowed_strings (cwd P : string) (D : list string) :
  isPathAllowed cwd (JStr P) (map JStr D) =
  Ok (existsb (fun d => String.prefix (resolved cwd d) (resolved cwd P)) D).
Proof.
  induction D as [|d D IH]; [reflexivity|].
  cbn [map existsb]. rewrite isPathAllowed_cons, IH.
  now destruct (String.prefix _ _).
Qed.

(** The scan stops at the first entry that matches: what follows it is
    not looked at, whatever it is. *)
Lemma isPathAllowed_first_match (cwd P : string) (D1 : list string)
    (d : string) (rest : list jsval) :
  (forall x, In x D1 ->
     String.prefix (resolved cwd x) (resolved cwd P) = false) ->
  String.prefix (resolved cwd d) (resolved cwd P) = true ->
  isPathAllowed cwd (JStr P) (map JStr D1 ++ JStr d :: rest)%list = Ok true.
Proof.
  intros Hno Hd. induction D1 as [|x D1 IH]; cbn [map app].
  - now rewrite isPathAllowed_cons, Hd.
  - rewrite isPathAllowed_cons, (Hno x (or_introl eq_refl)).
    apply IH. intros y Hy. apply Hno. now right.
Qed.

(** [false] is returned only when every entry was compared and none
    matched. *)
Lemma isPathAllowed_false_exhausted (cwd P : string) (D : list jsval) :
  isPathAllowed cwd (JStr P) D = Ok false ->
  forall v, In v D ->
    exists d, v = JStr d /\
      String.prefix (resolved cwd d) (resolved cwd P) = false.
Proof.
  induction D as [|a D IH]; intros H v Hin; [destruct Hin|].
  destruct a as [| | | |d| |];
    try (cbn [isPathAllowed] in H; rewrite resolve_not_string in H
           by (intros ? ?; discriminate); discriminate).
  rewrite isPathAllowed_cons in H.
  destruct (String.prefix (resolved cwd d) (resolved cwd P)) eqn:Hp;
    [discriminate|].
  destruct Hin as [<-|Hin]; [now exists d | now apply IH].
Qed.

(** C1.  [isPathAllowed(P, D)] on a requested path [P] and allowed
    directories [D]: both sides of each comparison are normalized by
    [path.resolve], which succeeds on every string; the call returns a
    boolean, and returns [true] if and only if the normalized [P] is the
    normalized form of some [d] in [D] followed by further characters
    (possibly none).  The scan short-circuits: once an entry matches,
    [true] is returned whatever the rest of the list holds, and [false]
    is returned only when every entry has been compared and none
    matched. *)
Theorem isPathAllowed_iff_some_prefix (cwd P : string) :
  (forall p, NodePath.resolve cwd [JStr p] = Ok (resolved cwd p)) /\
  (forall D : list string,
     isPathAllowed cwd (JStr P) (map JStr D) = Ok true \/
     isPathAllowed cwd (JStr P) (map JStr D) = Ok false) /\
  (forall D : list string,
     isPathAllowed cwd (JStr P) (map JStr D) = Ok true <->
     exists d, In d D /\
       exists suffix, resolved cwd P = resolved cwd d ++ suffix) /\
  (forall (D1 : list string) (d : string) (rest : list jsval),
     (forall x, In x D1 ->
        ~ exists suffix, resolved cwd P = resolved cwd x ++ suffix) ->
     (exists suffix, resolved cwd P = resolved cwd d ++ suffix) ->
     isPathAllowed cwd (JStr P) (map JStr D1 ++ JStr d :: rest)%list
     = Ok true) /\
  (forall D : list jsval,
     isPathAllowed cwd (JStr P) D = Ok false ->
     forall v, In v D ->
       exists d, v = JStr d /\
         ~ exists suffix, resolved cwd P = resolved cwd d ++ suffix).
Proof.
  split; [|split; [|split; [|split]]].
  - apply resolve_string.
  - intros D. rewrite isPathAllowed_strings. destruct (existsb _ D); auto.
  - intros D. rewrite isPathAllowed_strings. split.
    + intros H. injection H as H.
      apply existsb_exists in H. destruct H as (d & Hin & Hp).
      exists d. split; [assumption | now apply prefix_append].
    + intros (d & Hin & Hs). f_equal. apply existsb_exists.
      exists d. split; [assumption | now apply prefix_append].
  - intros D1 d rest Hno Hd. apply isPathAllowed_first_match.
    + intros x Hx. destruct (String.prefix _ _) eqn:Hp; [|reflexivity].
      exfalso. apply (Hno x Hx). now apply prefix_append.
    + now apply prefix_append.
  - intros D H v Hin.
    destruct (isPathAllowed_false_exhausted cwd P D H v Hin) as (d & -> & Hp).
    exists d. split; [reflexivity|]. intros Hs.
    apply prefix_append in Hs. congruence.
Qed.

(** C2.  The prefix comparison has no separator boundary: with the one
    allowed directory /a/b, the path /a/bc/file is approved, although its
    directory /a/bc is a sibling of /a/b (same parent, another name) and
    the path neither is /a/b nor starts with /a/b followed by a
    separator. *)
Theorem sibling_prefix_false_positive :
  exists d P : string,
    NodePath.dirname (NodePath.dirname P) = NodePath.dirname d /\
    NodePath.dirname P <> d /\
    (forall cwd, resolved cwd P <> resolved cwd d) /\
    (forall cwd, String.prefix (resolved cwd d ++ "/") (resolved cwd P) = false) /\
    (forall cwd, isPathAllowed cwd (JStr P) [JStr d] = Ok true).
Proof.
  exists "/a/b", "/a/bc/file".
  split; [reflexivity|]. split; [discriminate|].
  split; [intros cwd; discriminate|].
  split; intros cwd; reflexivity.
Qed.

(** C10.  An allowed directory is approved when it is itself the
    requested path: a normalized path starts with itself. *)
Theorem isPathAllowed_allowed_dir_itself (cwd d : string) (D : list string) :
  In d D -> isPathAllowed cwd (JStr d) (map JStr D) = Ok true.
Proof.
  intros Hin. rewrite isPathAllowed_strings. f_equal.
  apply existsb_exists. exists d. split; [assumption | apply prefix_refl].
Qed.

Lemma isPathAllowed_allowed_dir_itself_witness :
  In "/w/projects" ["/srv/data"; "/w/projects"] /\
  isPathAllowed "/home/u" (JStr "/w/projects")
    (map JStr ["/srv/data"; "/w/projects"]) = Ok true.
Proof.
  split.
  - simpl. auto.
  - apply (isPathAllowed_allowed_dir_itself "/home/u" "/w/projects"
             ["/srv/data"; "/w/projects"]).
    simpl. auto.
Defined.

(** ** Config discovery *)

Lemma push_if_exists_spec (configFiles : list string) (p : string)
    (st : state) :
  push_if_exists configFiles p st =
  (Ok (if exists_ (fs st) p then (configFiles ++ [p])%list else configFiles),
   logged st [EvAccess p]).
Proof.
  unfold push_if_exists. run. now destruct (exists_ (fs st) p).
Qed.

Lemma search_up_spec (worktree : string) (n : nat) :
  forall (currentDir : string) (configFiles : list string) (st : state),
    (climb currentDir < n)%nat ->
    exists dirs,
      Climb worktree currentDir dirs /\
      (List.length dirs <= n)%nat /\
      search_up worktree currentDir configFiles st =
      (Ok (configFiles ++ filter (exists_ (fs st)) (map config_path dirs))%list,
       logged st (map EvAccess (map config_path dirs))).
Proof.
  induction n as [|n IH]; intros currentDir configFiles st Hn; [lia|].
  rewrite search_up_equation_1. cbn zeta.
  rewrite push_if_exists_spec. fold (config_path currentDir).
  destruct (String.eqb_spec currentDir worktree) as [E|NE].
  - exists [currentDir]. split; [now constructor|]. split; [simpl; lia|].
    cbn [map filter]. destruct (exists_ (fs st) _); now rewrite ?app_nil_r.
  - destruct (string_dec (NodePath.dirname currentDir) currentDir) as [E|NE'].
    + exists [currentDir]. split; [now apply Climb_root|]. split; [simpl; lia|].
      cbn [map filter]. destruct (exists_ (fs st) _); now rewrite ?app_nil_r.
    + pose proof (dirname_climb currentDir NE') as Hlt.
      destruct (IH (NodePath.dirname currentDir)
                  (if exists_ (fs st) (config_path currentDir)
                   then (configFiles ++ [config_path currentDir])%list
                   else configFiles)
                  (logged st [EvAccess (config_path currentDir)])
                  ltac:(lia)) as (dirs & Hc & Hl & Hr).
      exists (currentDir :: dirs).
      split; [now apply Climb_parent|]. split; [simpl; lia|].
      rewrite Hr, logged_logged. cbn [map filter logged fs].
      destruct (exists_ (fs st) (config_path currentDir));
        now rewrite <- ?app_assoc.
Qed.

(** Along a climb, only the last directory can be the boundary or its own
    parent. *)
Lemma Climb_stops_at_boundary (worktree dir : string) (dirs : list string) :
  Climb worktree dir dirs ->
  forall (before : list string) (d : string) (after : list string),
    dirs = (before ++ d :: after)%list ->
    (d = worktree \/ NodePath.dirname d = d) -> after = [].
Proof.
  induction 1 as [dir E|dir NE R|dir dirs NE NR Hc IH];
    intros before d after Hd Hstop.
  - destruct before as [|b before]; [now inversion Hd|].
    inversion Hd. now destruct before.
  - destruct before as [|b before]; [now inversion Hd|].
    inversion Hd. now destruct before.
  - destruct before as [|b before].
    + inversion Hd; subst. destruct Hstop; contradiction.
    + inversion Hd; subst. now apply (IH before d after).
Qed.

Lemma Climb_chain (worktree dir : string) (dirs : list string) :
  Climb worktree dir dirs ->
  exists rest, dirs = dir :: rest /\
    forall (before : list string) (d e : string) (after : list string),
      dirs = (before ++ d :: e :: after)%list -> e = NodePath.dirname d.
Proof.
  induction 1 as [dir E|dir NE R|dir dirs NE NR Hc IH].
  - exists []. split; [reflexivity|].
    intros [|b [|? ?]] d e after H; simpl in H; congruence.
  - exists []. split; [reflexivity|].
    intros [|b [|? ?]] d e after H; simpl in H; congruence.
  - destruct IH as (rest & -> & IH). exists (NodePath.dirname dir :: rest).
    split; [reflexivity|]. intros [|b before] d e after H.
    + simpl in H. congruence.
    + simpl in H. injection H as _ H. exact (IH before d e after H).
Qed.

Lemma Climb_last (worktree dir : string) (dirs : list string) :
  Climb worktree dir dirs ->
  exists (before : list string) (last : string),
    dirs = (before ++ [last])%list /\
    (last = worktree \/ NodePath.dirname last = last).
Proof.
  induction 1 as [dir E|dir NE R|dir dirs NE NR Hc IH].
  - exists [], dir. auto.
  - exists [], dir. auto.
  - destruct IH as (before & last & -> & Hstop).
    exists (dir :: before), last. auto.
Qed.

(** C5.  The ancestor walk of the config locator, started in [directory]
    with boundary [worktree], returns: it tests the config path of a list
    [dirs] of directories, one [fs.access] each and in this order, of at
    most [climb directory + 1] entries.  [dirs] starts with [directory];
    each further entry is the [path.dirname] of the entry before it, and an
    entry that is followed by another is neither the boundary nor its own
    parent, so nothing is visited past the boundary; the last entry is the
    boundary or, when the boundary was not met, its own parent (the root).
    Equality of directories is equality of strings, as [===] has it. *)
Theorem search_up_terminates_at_boundary (worktree directory : string)
    (configFiles : list string) (st : state) :
  exists dirs : list string,
    search_up worktree directory configFiles st =
      (Ok (configFiles ++ filter (exists_ (fs st)) (map config_path dirs))%list,
       logged st (map EvAccess (map config_path dirs))) /\
    (List.length dirs <= climb directory + 1)%nat /\
    (exists rest, dirs = directory :: rest) /\
    (forall before d e after,
       dirs = (before ++ d :: e :: after)%list ->
       e = NodePath.dirname d /\ d <> worktree /\ NodePath.dirname d <> d) /\
    (exists before last,
       dirs = (before ++ [last])%list /\
       (last = worktree \/ NodePath.dirname last = last)).
Proof.
  destruct (search_up_spec worktree (climb directory + 1) directory
              configFiles st ltac:(lia)) as (dirs & Hc & Hl & Hr).
  exists dirs. split; [exact Hr|]. split; [exact Hl|].
  destruct (Climb_chain _ _ _ Hc) as (rest & Hd & Hchain).
  split; [now exists rest|]. split; [|now apply (Climb_last worktree directory)].
  intros before d e after H. split; [now apply (Hchain before d e after)|].
  split; intros Hstop.
  - pose proof (Climb_stops_at_boundary _ _ _ Hc before d (e :: after) H
                  (or_introl Hstop)). discriminate.
  - pose proof (Climb_stops_at_boundary _ _ _ Hc before d (e :: after) H
                  (or_intror Hstop)). discriminate.
Qed.

Lemma for_of_push_if_exists (ps configFiles : list string) (st : state) :
  for_of ps push_if_exists configFiles st =
  (Ok (configFiles ++ filter (exists_ (fs st)) ps)%list,
   logged st (map EvAccess ps)).
Proof.
  revert configFiles st. induction ps as [|p ps IH]; intros configFiles st.
  - cbn. now rewrite app_nil_r, logged_nil.
  - cbn [for_of]. unfold bind at 1. rewrite push_if_exists_spec, IH.
    rewrite logged_logged. cbn [map filter logged fs app].
    destruct (exists_ (fs st) p); now rewrite <- ?app_assoc.
Qed.

(** [findConfigFiles] returns, and what it returns are the candidates that
    exist: the global ones, then those of the ancestor walk. *)
Lemma findConfigFiles_spec (env_HOME env_USERPROFILE : option string)
    (directory worktree : string) (st : state) :
  exists dirs : list string,
    Climb worktree directory dirs /\
    let candidates :=
      (global_config_paths env_HOME env_USERPROFILE
       ++ map config_path dirs)%list in
    findConfigFiles env_HOME env_USERPROFILE directory worktree st =
    (Ok (filter (exists_ (fs st)) candidates),
     logged st (map EvAccess candidates)).
Proof.
  unfold findConfigFiles. fold (global_config_paths env_HOME env_USERPROFILE).
  unfold bind. rewrite for_of_push_if_exists.
  destruct (search_up_spec worktree (climb directory + 1) directory
              ([] ++ filter (exists_ (fs st))
                      (global_config_paths env_HOME env_USERPROFILE))%list
              (logged st (map EvAccess
                 (global_config_paths env_HOME env_USERPROFILE)))
              ltac:(lia)) as (dirs & Hc & _ & Hr).
  exists dirs. split; [exact Hc|]. cbn zeta.
  rewrite Hr, logged_logged, !map_app, filter_app. reflexivity.
Qed.

(** ** Config merge *)

Section Merge.

Variable JSON_parse : string -> option jsval.

Lemma load_config_spec (allDirs : list jsval) (configPath : string)
    (st : state) :
  load_config JSON_parse allDirs configPath st =
  (Ok (fold_left Set_add (contribution JSON_parse (fs st) configPath) allDirs),
   logged st (load_events JSON_parse (fs st) configPath)).
Proof.
  unfold load_config, contribution, load_events, read_dirs. run.
  destruct (contents (fs st) configPath) as [content|]; [|store_eq].
  destruct (JSON_parse content) as [config|]; [|store_eq].
  destruct (get_member config "allowedDirectories") as [allowed|e];
    [|store_eq].
  destruct (js_or allowed (JArr [])) as [| | | | |elems|]; try store_eq.
  cbn [forEach_add array_length].
  destruct (0 <? List.length elems)%nat; store_eq.
Qed.

Lemma for_of_load_config (configFiles : list string) (allDirs : list jsval)
    (st : state) :
  for_of configFiles (load_config JSON_parse) allDirs st =
  (Ok (merged JSON_parse (fs st) configFiles allDirs),
   logged st (flat_map (load_events JSON_parse (fs st)) configFiles)).
Proof.
  revert allDirs st.
  induction configFiles as [|p ps IH]; intros allDirs st.
  - cbn. now rewrite logged_nil.
  - cbn [for_of]. unfold bind at 1. rewrite load_config_spec, IH.
    now rewrite logged_logged.
Qed.

End Merge.

Lemma reads_of_app (a b : list event) :
  reads_of (a ++ b) = (reads_of a ++ reads_of b)%list.
Proof.
  induction a as [|[] a IH]; simpl; congruence.
Qed.

Lemma accesses_of_app (a b : list event) :
  accesses_of (a ++ b) = (accesses_of a ++ accesses_of b)%list.
Proof.
  induction a as [|[] a IH]; simpl; congruence.
Qed.

Lemma reads_of_load_events (JSON_parse : string -> option jsval)
    (fsys : FileSystem) (configFiles : list string) :
  reads_of (flat_map (load_events JSON_parse fsys) configFiles) = configFiles.
Proof.
  induction configFiles as [|p ps IH]; [reflexivity|].
  cbn [flat_map]. rewrite reads_of_app, IH. unfold load_events.
  destruct (read_dirs JSON_parse fsys p) as [elems|e]; [|reflexivity].
  now destruct (0 <? List.length elems)%nat.
Qed.

Lemma accesses_of_load_events (JSON_parse : string -> option jsval)
    (fsys : FileSystem) (configFiles : list string) :
  accesses_of (flat_map (load_events JSON_parse fsys) configFiles) = [].
Proof.
  induction configFiles as [|p ps IH]; [reflexivity|].
  cbn [flat_map]. rewrite accesses_of_app, IH. unfold load_events.
  destruct (read_dirs JSON_parse fsys p) as [elems|e]; [|reflexivity].
  now destruct (0 <? List.length elems)%nat.
Qed.

(** ** The set of directory strings *)

Lemma sameValueZero_str (s : string) (x : jsval) :
  sameValueZero (JStr s) x = true <-> x = JStr s.
Proof.
  destruct x; simpl; try (split; [discriminate | congruence]).
  rewrite String.eqb_eq. split; congruence.
Qed.

Lemma strings_of_app (a b : list jsval) :
  strings_of (a ++ b) = (strings_of a ++ strings_of b)%list.
Proof.
  induction a as [|[] a IH]; simpl; congruence.
Qed.

Lemma In_strings_of (s : string) (set : list jsval) :
  In s (strings_of set) <-> In (JStr s) set.
Proof.
  induction set as [|v set IH]; [reflexivity|].
  destruct v; simpl; rewrite IH;
    try (split; [now right | intros [H|H]; [discriminate | assumption]]).
  split; intros [H|H]; auto; left; congruence.
Qed.

(** [add] on a string: appended unless the same string is a member. *)
Lemma Set_add_str (set : list jsval) (s : string) :
  Set_add set (JStr s) = set /\ In (JStr s) set \/
  Set_add set (JStr s) = (set ++ [JStr s])%list /\ ~ In (JStr s) set.
Proof.
  unfold Set_add.
  destruct (existsb (sameValueZero (JStr s)) set) eqn:E.
  - left. split; [reflexivity|].
    apply existsb_exists in E. destruct E as (x & Hin & Hx).
    apply sameValueZero_str in Hx. now subst.
  - right. split; [reflexivity|]. intros Hin.
    assert (existsb (sameValueZero (JStr s)) set = true) as E'; [|congruence].
    apply existsb_exists. exists (JStr s). split; [assumption|].
    now apply sameValueZero_str.
Qed.

(** [add] on a value that is not a string leaves the strings alone. *)
Lemma Set_add_other (set : list jsval) (v : jsval) :
  (forall s, v <> JStr s) -> strings_of (Set_add set v) = strings_of set.
Proof.
  intros Hv. unfold Set_add.
  match goal with |- context [existsb ?f set] => destruct (existsb f set) end;
    [reflexivity|].
  rewrite strings_of_app.
  destruct v as [| | |[]|s| |]; simpl; rewrite ?app_nil_r; try reflexivity.
  now destruct (Hv s).
Qed.

Lemma strings_of_Set_add (set : list jsval) (v : jsval) :
  (forall x, In x (strings_of (Set_add set v)) <->
             In x (strings_of set) \/ v = JStr x) /\
  (NoDup (strings_of set) -> NoDup (strings_of (Set_add set v))).
Proof.
  destruct v as [| | | |s| |];
    try (rewrite Set_add_other by (intros ? ?; discriminate);
         split; [intros y; split; [now left | intros [H|H]; [assumption|discriminate]]
                | now intros H]).
  destruct (Set_add_str set s) as [[-> Hin]|[-> Hnin]].
  - split; [|now intros H]. intros x. split; [now left|].
    intros [H|H]; [assumption|]. injection H as <-. now apply In_strings_of.
  - rewrite strings_of_app. simpl. split.
    + intros x. rewrite in_app_iff. simpl.
      split; intros [H|H]; auto.
      * destruct H as [<-|[]]. now right.
      * injection H as <-. right. now left.
    + intros Hnd. apply NoDup_app; [assumption | repeat constructor; auto |].
      intros x Hx [<-|[]]. apply Hnin. now apply In_strings_of.
Qed.

Lemma strings_of_fold_Set_add (elems set : list jsval) :
  (forall x, In x (strings_of (fold_left Set_add elems set)) <->
             In x (strings_of set) \/ In (JStr x) elems) /\
  (NoDup (strings_of set) ->
   NoDup (strings_of (fold_left Set_add elems set))).
Proof.
  revert set. induction elems as [|v elems IH]; intros set; cbn [fold_left].
  - split; [|now intros H]. intros x. simpl. tauto.
  - destruct (IH (Set_add set v)) as [IHin IHnd].
    destruct (strings_of_Set_add set v) as [Hin Hnd].
    split; [|auto]. intros x. rewrite IHin, Hin. simpl.
    split; [intros [[H|H]|H] | intros [H|[H|H]]]; auto.
Qed.

Lemma strings_of_merged (JSON_parse : string -> option jsval)
    (fsys : FileSystem) (configFiles : list string) (allDirs : list jsval) :
  (forall x, In x (strings_of (merged JSON_parse fsys configFiles allDirs)) <->
             In x (strings_of allDirs) \/
             exists p, In p configFiles /\
                       In (JStr x) (contribution JSON_parse fsys p)) /\
  (NoDup (strings_of allDirs) ->
   NoDup (strings_of (merged JSON_parse fsys configFiles allDirs))).
Proof.
  revert allDirs. unfold merged.
  induction configFiles as [|p ps IH]; intros allDirs; cbn [fold_left].
  - split; [|now intros H]. intros x. split; [now left|].
    intros [H|(p & [] & _)]. assumption.
  - destruct (IH (fold_left Set_add (contribution JSON_parse fsys p) allDirs))
      as [IHin IHnd].
    destruct (strings_of_fold_Set_add (contribution JSON_parse fsys p) allDirs)
      as [Hin Hnd].
    split; [|auto]. intros x. rewrite IHin, Hin. split.
    + intros [[H|H]|(q & Hq & H)]; [now left | right | right].
      * exists p. split; [now left | assumption].
      * exists q. split; [now right | assumption].
    + intros [H|(q & [<-|Hq] & H)]; [now left; left | now left; right |].
      right. now exists q.
Qed.

(** C7.  The loop over the candidate config files never stops early: it
    returns the set built from what each file contributes, and every file
    of the list has been read, in order.  A string is in the resulting set
    exactly when it was there before or some file of the list contributes
    it.  A file that cannot be read, or whose text [JSON.parse] rejects,
    contributes nothing; a file whose object has no [allowedDirectories],
    or an empty one, contributes nothing and no error is logged for it;
    a file whose [allowedDirectories] is an array contributes its
    elements. *)
Theorem load_continues_past_failed_config
    (JSON_parse : string -> option jsval) (configFiles : list string)
    (allDirs : list jsval) (st : state) :
  exists st',
    for_of configFiles (load_config JSON_parse) allDirs st =
      (Ok (merged JSON_parse (fs st) configFiles allDirs), st') /\
    reads_of (trace st') = (reads_of (trace st) ++ configFiles)%list /\
    (forall x,
       In (JStr x) (merged JSON_parse (fs st) configFiles allDirs) <->
       In (JStr x) allDirs \/
       exists p, In p configFiles /\
                 In (JStr x) (contribution JSON_parse (fs st) p)) /\
    (forall p,
       contents (fs st) p = None ->
       contribution JSON_parse (fs st) p = []) /\
    (forall p content,
       contents (fs st) p = Some content -> JSON_parse content = None ->
       contribution JSON_parse (fs st) p = []) /\
    (forall p content props,
       contents (fs st) p = Some content ->
       JSON_parse content = Some (JObj props) ->
       own_property "allowedDirectories" props = JUndefined \/
       own_property "allowedDirectories" props = JArr [] ->
       contribution JSON_parse (fs st) p = [] /\
       load_events JSON_parse (fs st) p = [EvReadFile p]) /\
    (forall p content props elems,
       contents (fs st) p = Some content ->
       JSON_parse content = Some (JObj props) ->
       own_property "allowedDirectories" props = JArr elems ->
       contribution JSON_parse (fs st) p = elems).
Proof.
  eexists. split; [apply for_of_load_config|].
  split; [cbn; now rewrite reads_of_app, reads_of_load_events|].
  split.
  { intros x. rewrite <- !In_strings_of.
    apply (strings_of_merged JSON_parse (fs st) configFiles allDirs). }
  unfold contribution, load_events, read_dirs.
  split; [intros p H; now rewrite H|].
  split; [intros p content H1 H2; now rewrite H1, H2|].
  split.
  - intros p content props H1 H2 [H3|H3]; rewrite H1, H2; cbn; now rewrite H3.
  - intros p content props elems H1 H2 H3. rewrite H1, H2. cbn. rewrite H3.
    reflexivity.
Qed.

(** C8.  The merge does not depend on the order of the config files: run
    on a list of files and on any permutation of it, the loop returns sets
    with the same strings.  No string occurs twice in either, the strings
    of the two are a permutation of each other, and a string is a member
    exactly when some file contributes it, whichever file that is and
    wherever it stands in the list. *)
Theorem merge_order_independent (JSON_parse : string -> option jsval)
    (files1 files2 : list string) (st : state) :
  Permutation files1 files2 ->
  exists m1 m2 st1 st2,
    for_of files1 (load_config JSON_parse) [] st = (Ok m1, st1) /\
    for_of files2 (load_config JSON_parse) [] st = (Ok m2, st2) /\
    (forall s, In (JStr s) m1 <-> In (JStr s) m2) /\
    NoDup (strings_of m1) /\ NoDup (strings_of m2) /\
    Permutation (strings_of m1) (strings_of m2) /\
    (forall s, In (JStr s) m1 <->
               exists p, In p files1 /\
                         In (JStr s) (contribution JSON_parse (fs st) p)).
Proof.
  intros Hperm.
  destruct (strings_of_merged JSON_parse (fs st) files1 []) as [Hin1 Hnd1].
  destruct (strings_of_merged JSON_parse (fs st) files2 []) as [Hin2 Hnd2].
  specialize (Hnd1 (NoDup_nil _)). specialize (Hnd2 (NoDup_nil _)).
  assert (forall s,
            In s (strings_of (merged JSON_parse (fs st) files1 [])) <->
            In s (strings_of (merged JSON_parse (fs st) files2 []))) as Hsame.
  { intros s. rewrite Hin1, Hin2.
    split; intros [[]|(p & Hp & H)]; right; exists p; split; try assumption.
    - now apply (Permutation_in _ Hperm).
    - now apply (Permutation_in _ (Permutation_sym Hperm)). }
  do 4 eexists.
  split; [apply for_of_load_config|]. split; [apply for_of_load_config|].
  split; [intros s; rewrite <- !In_strings_of; apply Hsame|].
  split; [exact Hnd1|]. split; [exact Hnd2|].
  split; [now apply NoDup_Permutation|].
  intros s. rewrite <- In_strings_of, Hin1.
  split; [intros [[]|H]; exact H | intros H; now right].
Qed.

(** ** The cache *)

Lemma Climb_deterministic (worktree dir : string) (dirs1 dirs2 : list string) :
  Climb worktree dir dirs1 -> Climb worktree dir dirs2 -> dirs1 = dirs2.
Proof.
  intros H1. revert dirs2.
  induction H1 as [dir E|dir NE R|dir dirs NE NR Hc IH];
    intros dirs2 H2; inversion H2; subst; try congruence.
  f_equal. now apply IH.
Qed.

Section Cache.

Variable JSON_parse : string -> option jsval.
Variable cwd : string.
Variable env_HOME env_USERPROFILE : option string.
Variable directory worktree : string.

Local Abbreviation findConfigFiles' :=
  (findConfigFiles env_HOME env_USERPROFILE directory worktree).
Local Abbreviation getAllowedDirectories' :=
  (getAllowedDirectories JSON_parse env_HOME env_USERPROFILE directory worktree).
Local Abbreviation permission_ask' :=
  (permission_ask JSON_parse cwd env_HOME env_USERPROFILE directory worktree).
Local Abbreviation listAllowedDirectories' :=
  (listAllowedDirectories JSON_parse env_HOME env_USERPROFILE directory
     worktree).

(** The existing config files depend on the file system only. *)
Lemma findConfigFiles_files (st : state) :
  exists configFiles evs,
    findConfigFiles' st = (Ok configFiles, logged st evs) /\
    forall st', fs st' = fs st ->
      findConfigFiles' st' = (Ok configFiles, logged st' evs).
Proof.
  destruct (findConfigFiles_spec env_HOME env_USERPROFILE directory worktree st)
    as (dirs & Hc & Hr).
  cbn zeta in Hr. do 2 eexists. split; [exact Hr|].
  intros st' Hfs.
  destruct (findConfigFiles_spec env_HOME env_USERPROFILE directory worktree st')
    as (dirs' & Hc' & Hr').
  cbn zeta in Hr'. rewrite Hr', Hfs.
  now rewrite (Climb_deterministic _ _ _ _ Hc' Hc).
Qed.

Lemma getAllowedDirectories_cached (st : state) (dirs : list jsval) :
  cachedDirs st = Some dirs -> getAllowedDirectories' st = (Ok dirs, st).
Proof.
  intros H. unfold getAllowedDirectories. run. now rewrite H.
Qed.

(** The first call: the locator runs, every file it found is read, and
    the merged set is stored in the cache. *)
Lemma getAllowedDirectories_first (st : state) :
  cachedDirs st = None ->
  exists configFiles st1 evs,
    findConfigFiles' st = (Ok configFiles, st1) /\
    getAllowedDirectories' st =
      (Ok (merged JSON_parse (fs st) configFiles []),
       cached_as st1 (merged JSON_parse (fs st) configFiles []) evs) /\
    fs st1 = fs st /\
    reads_of evs = configFiles /\
    (configFiles = [] -> evs = [EvLogInfo NoConfigFound]).
Proof.
  intros Hnone.
  destruct (findConfigFiles_files st) as (configFiles & evs0 & Hf & _).
  exists configFiles, (logged st evs0).
  unfold getAllowedDirectories. unfold bind at 1. unfold get_cachedDirs.
  rewrite Hnone. unfold bind at 1. rewrite Hf.
  destruct configFiles as [|p ps].
  - exists [EvLogInfo NoConfigFound]. cbn. repeat split; reflexivity.
  - exists (flat_map (load_events JSON_parse (fs st)) (p :: ps)
            ++ [EvLogInfo (TotalUnique
                  (List.length (merged JSON_parse (fs st) (p :: ps) [])))])%list.
    split; [reflexivity|].
    split.
    + cbn [List.length Nat.eqb]. unfold bind at 1.
      rewrite for_of_load_config. run. cbn [logged fs].
      unfold cached_as, logged. cbn [fs trace cachedDirs].
      now rewrite <- !app_assoc.
    + split; [reflexivity|]. split; [|discriminate].
      rewrite reads_of_app, reads_of_load_events. cbn. now rewrite app_nil_r.
Qed.

(** [getAllowedDirectories] returns, with its result in the cache, and
    the result does not depend on what was logged before. *)
Lemma getAllowedDirectories_total (st : state) :
  exists dirs evs,
    getAllowedDirectories' st = (Ok dirs, cached_as st dirs evs) /\
    forall st', cachedDirs st' = cachedDirs st -> fs st' = fs st ->
      getAllowedDirectories' st' = (Ok dirs, cached_as st' dirs evs).
Proof.
  destruct (cachedDirs st) as [dirs|] eqn:Hc.
  - exists dirs, []. split.
    + rewrite (getAllowedDirectories_cached st dirs Hc).
      unfold cached_as. rewrite app_nil_r, <- Hc. now destruct st.
    + intros st' Hc' _. rewrite (getAllowedDirectories_cached st' dirs Hc').
      unfold cached_as. rewrite app_nil_r, <- Hc'. now destruct st'.
  - destruct (findConfigFiles_files st) as (configFiles & evs0 & Hf & Hf').
    assert (forall s, cachedDirs s = None -> fs s = fs st ->
              exists evs,
                getAllowedDirectories' s =
                (Ok (merged JSON_parse (fs st) configFiles []),
                 cached_as s (merged JSON_parse (fs st) configFiles []) evs) /\
                evs = (evs0 ++ if (List.length configFiles =? 0)%nat
                               then [EvLogInfo NoConfigFound]
                               else (flat_map (load_events JSON_parse (fs st))
                                       configFiles
                                     ++ [EvLogInfo (TotalUnique (List.length
                                           (merged JSON_parse (fs st)
                                              configFiles [])))]))%list) as H.
    { intros s Hs Hfs. eexists. split; [|reflexivity].
      unfold getAllowedDirectories. unfold bind at 1. unfold get_cachedDirs.
      rewrite Hs. unfold bind at 1. rewrite (Hf' s Hfs).
      destruct configFiles as [|p ps].
      - cbn. unfold cached_as. cbn. now rewrite <- app_assoc.
      - cbn [List.length Nat.eqb]. unfold bind at 1.
        rewrite for_of_load_config. run. cbn [logged fs].
        unfold cached_as, logged. cbn [fs trace cachedDirs].
        rewrite Hfs. now rewrite <- !app_assoc. }
    destruct (H st Hc eq_refl) as (evs & Hr & ->).
    do 2 eexists. split; [exact Hr|].
    intros st' Hc' Hfs.
    destruct (H st' Hc' Hfs) as (evs' & Hr' & ->). exact Hr'.
Qed.

End Cache.

(** ** The hook *)

Section Hook.

Variable JSON_parse : string -> option jsval.
Variable cwd : string.
Variable env_HOME env_USERPROFILE : option string.
Variable directory worktree : string.

Local Abbreviation getAllowedDirectories' :=
  (getAllowedDirectories JSON_parse env_HOME env_USERPROFILE directory worktree).
Local Abbreviation permission_ask' :=
  (permission_ask JSON_parse cwd env_HOME env_USERPROFILE directory worktree).
Local Abbreviation listAllowedDirectories' :=
  (listAllowedDirectories JSON_parse env_HOME env_USERPROFILE directory
     worktree).

(** The hook, path by path. *)
Lemma permission_ask_spec (input : Permission) (st : state) (output : Output) :
  permission_ask' input (st, output) =
  let st0 := logged st [EvLogInfo (PermissionRequestType (type input))] in
  if negb (String.eqb (type input) "external_directory") then
    (Ok tt,
     (logged st0 [EvLogInfo (SkippingNonExternal (type input))], output))
  else if negb (truthy (requested_dir input)) then (Ok tt, (st0, output))
  else
    match getAllowedDirectories' st0 with
    | (Throw e, st1) => (Throw e, (st1, output))
    | (Ok allowedDirs, st1) =>
        match isPathAllowed cwd (requested_dir input) allowedDirs with
        | Throw e => (Throw e, (st1, output))
        | Ok true =>
            (Ok tt,
             (logged st1 [EvLogInfo (AutoAllowing (requested_dir input))],
              {| status := "allow" |}))
        | Ok false =>
            (Ok tt,
             (logged st1 [EvLogInfo (NotInAllowedList (requested_dir input))],
              output))
        end
    end.
Proof.
  unfold permission_ask. cbn zeta.
  unfold bind at 1. unfold in_plugin at 1. unfold log_info at 1.
  rewrite emit_logged.
  destruct (negb (String.eqb (type input) "external_directory")).
  - unfold in_plugin, log_info. now rewrite emit_logged.
  - destruct (negb (truthy (requested_dir input))); [reflexivity|].
    unfold bind at 1. unfold in_plugin at 1.
    destruct (getAllowedDirectories' _) as [[allowedDirs|e] st1]; [|reflexivity].
    unfold bind at 1. unfold lift at 1.
    destruct (isPathAllowed cwd (requested_dir input) allowedDirs)
      as [[|]|e]; try reflexivity.
Qed.

End Hook.

(** C3.  On every permission request the hook either sets
    [output.status] to "allow", which it does exactly when the request is
    authorized (its type is "external_directory", a target path is
    present, and [isPathAllowed] returns [true] for that path and the
    directories [getAllowedDirectories] returns), or leaves [output] as it
    was.  No other status is ever written. *)
Theorem permission_ask_allows_or_leaves_output
    (JSON_parse : string -> option jsval) (cwd : string)
    (env_HOME env_USERPROFILE : option string) (directory worktree : string)
    (input : Permission) (st : state) (output : Output) :
  let authorized :=
    type input = "external_directory" /\
    truthy (requested_dir input) = true /\
    exists allowedDirs st1,
      getAllowedDirectories JSON_parse env_HOME env_USERPROFILE directory
        worktree st = (Ok allowedDirs, st1) /\
      isPathAllowed cwd (requested_dir input) allowedDirs = Ok true in
  exists r st' output',
    permission_ask JSON_parse cwd env_HOME env_USERPROFILE directory worktree
      input (st, output) = (r, (st', output')) /\
    ((authorized /\ r = Ok tt /\ output' = {| status := "allow" |}) \/
     (~ authorized /\ output' = output)).
Proof.
  cbn zeta. rewrite permission_ask_spec. cbn zeta.
  destruct (String.eqb_spec (type input) "external_directory") as [Ht|Ht];
    cbn [negb].
  2:{ do 3 eexists. split; [reflexivity|]. right. split; [|reflexivity].
      intros (H & _). contradiction. }
  destruct (truthy (requested_dir input)) eqn:Hp; cbn [negb].
  2:{ do 3 eexists. split; [reflexivity|]. right. split; [|reflexivity].
      intros (_ & H & _). discriminate. }
  destruct (getAllowedDirectories_total JSON_parse env_HOME env_USERPROFILE
              directory worktree st) as (dirs & evs & Hst & Hframe).
  rewrite (Hframe (logged st [EvLogInfo (PermissionRequestType (type input))])
             eq_refl eq_refl).
  destruct (isPathAllowed cwd (requested_dir input) dirs) as [[|]|e] eqn:Ha;
    do 3 eexists; (split; [reflexivity|]).
  - left. repeat split; try assumption. now exists dirs, (cached_as st dirs evs).
  - right. split; [|reflexivity]. intros (_ & _ & d & s & Hd & Hd').
    rewrite Hst in Hd. injection Hd as <- _. congruence.
  - right. split; [|reflexivity]. intros (_ & _ & d & s & Hd & Hd').
    rewrite Hst in Hd. injection Hd as <- _. congruence.
Qed.

(** C9.  A request whose type is not "external_directory" is passed
    through: the hook returns, [output] is as it was, the cache and the
    file system are untouched, and the trace has gained two log lines and
    nothing else (no [fs.access], no [fs.readFile]). *)
Theorem permission_ask_passes_other_types
    (JSON_parse : string -> option jsval) (cwd : string)
    (env_HOME env_USERPROFILE : option string) (directory worktree : string)
    (input : Permission) (st : state) (output : Output) :
  type input <> "external_directory" ->
  exists st',
    permission_ask JSON_parse cwd env_HOME env_USERPROFILE directory worktree
      input (st, output) = (Ok tt, (st', output)) /\
    cachedDirs st' = cachedDirs st /\
    fs st' = fs st /\
    trace st' =
      (trace st ++ [EvLogInfo (PermissionRequestType (type input));
                    EvLogInfo (SkippingNonExternal (type input))])%list.
Proof.
  intros Ht. rewrite permission_ask_spec. cbn zeta.
  destruct (String.eqb_spec (type input) "external_directory") as [E|_];
    [contradiction|].
  cbn [negb]. eexists. split; [reflexivity|].
  cbn. now rewrite <- app_assoc.
Qed.

(** C6.  [getAllowedDirectories] is memoized.  A call that finds the cache
    empty runs the locator, reads every file it found, and returns the
    merged set having stored it in the cache; with no config file the set
    is empty and the call still returns normally.  A call that finds the
    cache filled returns the cached value and leaves the store as it is:
    no [fs.access], no [fs.readFile], no log line, whatever the file
    system then holds.  So every call after the first returns what the
    first returned.  No operation of the plugin changes a filled cache. *)
Theorem getAllowedDirectories_memoized
    (JSON_parse : string -> option jsval) (cwd : string)
    (env_HOME env_USERPROFILE : option string) (directory worktree : string) :
  let getAllowedDirectories' :=
    getAllowedDirectories JSON_parse env_HOME env_USERPROFILE directory
      worktree in
  (forall st, cachedDirs st = None ->
     exists configFiles st1 evs,
       findConfigFiles env_HOME env_USERPROFILE directory worktree st =
         (Ok configFiles, st1) /\
       getAllowedDirectories' st =
         (Ok (merged JSON_parse (fs st) configFiles []),
          cached_as st1 (merged JSON_parse (fs st) configFiles []) evs) /\
       reads_of evs = configFiles /\
       (configFiles = [] ->
        merged JSON_parse (fs st) configFiles [] = [] /\
        evs = [EvLogInfo NoConfigFound])) /\
  (forall st dirs, cachedDirs st = Some dirs ->
     getAllowedDirectories' st = (Ok dirs, st)) /\
  (forall st dirs st1,
     getAllowedDirectories' st = (Ok dirs, st1) ->
     forall (fs' : FileSystem) (evs : list event),
       let later :=
         {| cachedDirs := cachedDirs st1; fs := fs';
            trace := (trace st1 ++ evs)%list |} in
       getAllowedDirectories' later = (Ok dirs, later)) /\
  (forall st dirs, cachedDirs st = Some dirs ->
     cachedDirs (snd (getAllowedDirectories' st)) = Some dirs /\
     cachedDirs (snd (listAllowedDirectories JSON_parse env_HOME
                        env_USERPROFILE directory worktree st)) = Some dirs /\
     forall input output,
       cachedDirs (fst (snd (permission_ask JSON_parse cwd env_HOME
                               env_USERPROFILE directory worktree input
                               (st, output)))) = Some dirs).
Proof.
  cbn zeta. split; [|split; [|split]].
  - intros st Hnone.
    destruct (getAllowedDirectories_first JSON_parse env_HOME env_USERPROFILE
                directory worktree st Hnone)
      as (configFiles & st1 & evs & Hf & Hg & _ & Hreads & Hempty).
    exists configFiles, st1, evs.
    split; [exact Hf|]. split; [exact Hg|]. split; [exact Hreads|].
    intros E. split; [now rewrite E | now apply Hempty].
  - intros st dirs. apply getAllowedDirectories_cached.
  - intros st dirs st1 Hfirst fs' evs.
    apply getAllowedDirectories_cached.
    destruct (getAllowedDirectories_total JSON_parse env_HOME env_USERPROFILE
                directory worktree st) as (dirs' & evs' & Hst & _).
    rewrite Hst in Hfirst. injection Hfirst as <- <-. reflexivity.
  - intros st dirs Hc.
    pose proof (getAllowedDirectories_cached JSON_parse env_HOME
                  env_USERPROFILE directory worktree) as Hcached.
    split; [now rewrite (Hcached st dirs Hc)|].
    split.
    + unfold listAllowedDirectories, bind. rewrite (Hcached st dirs Hc).
      now destruct (List.length dirs =? 0)%nat.
    + intros input output. rewrite permission_ask_spec. cbn zeta.
      destruct (negb (String.eqb (type input) "external_directory"));
        [exact Hc|].
      destruct (negb (truthy (requested_dir input))); [exact Hc|].
      rewrite (Hcached _ dirs) by exact Hc.
      destruct (isPathAllowed cwd (requested_dir input) dirs) as [[|]|e];
        exact Hc.
Qed.

(** Scenarios A and B of the spec: with /w/projects allowed by the local
    config, a file below it is approved and a file elsewhere is not. *)
Example scenario_allowed_and_not_allowed :
  let st := Scenario.fresh
    [(Scenario.local_config,
      Scenario.config_text (Scenario.quoted "/w/projects"))] in
  snd (snd (Scenario.ask (Scenario.request "/w/projects/app/file.ts") st
              {| status := "ask" |})) = {| status := "allow" |} /\
  snd (snd (Scenario.ask (Scenario.request "/w/other/file.ts") st
              {| status := "ask" |})) = {| status := "ask" |}.
Proof. split; vm_compute; reflexivity. Qed.

(** Scenarios C and D: a global and a local config with one directory each
    merge to two entries; no config at all gives the empty set. *)
Example scenario_two_configs_and_none :
  fst (getAllowedDirectories Scenario.JSON_parse (Some "/home/u") None
         "/w/app/src" "/w/app"
         (Scenario.fresh
            [(Scenario.global_config,
              Scenario.config_text (Scenario.quoted "/srv/shared"));
             (Scenario.local_config,
              Scenario.config_text (Scenario.quoted "/w/projects"))]))
  = Ok [JStr "/srv/shared"; JStr "/w/projects"] /\
  fst (getAllowedDirectories Scenario.JSON_parse (Some "/home/u") None
         "/w/app/src" "/w/app" (Scenario.fresh []))
  = Ok [].
Proof. split; vm_compute; reflexivity. Qed.

(** A malformed config and one whose [allowedDirectories] is a number
    instead of an array are logged and skipped; the config after them is
    still loaded. *)
Example scenario_bad_configs_are_skipped :
  let st := Scenario.fresh
    [(Scenario.global_config, "{oops");
     (Scenario.local_config,
      "{" ++ Scenario.quoted "allowedDirectories" ++ ":42}");
     (Scenario.worktree_config,
      Scenario.config_text (Scenario.quoted "/w/projects"))] in
  let run := getAllowedDirectories Scenario.JSON_parse (Some "/home/u") None
               "/w/app/src" "/w/app" st in
  fst run = Ok [JStr "/w/projects"] /\
  reads_of (trace (snd run)) =
    [Scenario.global_config; Scenario.local_config; Scenario.worktree_config] /\
  In (EvLogError (ErrorReading Scenario.global_config SyntaxError))
     (trace (snd run)) /\
  In (EvLogError (ErrorReading Scenario.local_config TypeError))
     (trace (snd run)).
Proof. vm_compute. repeat split; auto 10. Qed.

(** The ancestor walk from /w/app/src with boundary /w/app tests two
    directories; with a boundary that is no ancestor it goes on to the
    root and stops there. *)
Example scenario_ancestor_walk :
  accesses_of (trace (snd (search_up "/w/app" "/w/app/src" []
                             (Scenario.fresh []))))
  = ["/w/app/src/.opencode/opencode-allowlist.json";
     "/w/app/.opencode/opencode-allowlist.json"] /\
  accesses_of (trace (snd (search_up "/elsewhere" "/w/app" []
                             (Scenario.fresh []))))
  = ["/w/app/.opencode/opencode-allowlist.json";
     "/w/.opencode/opencode-allowlist.json";
     "/.opencode/opencode-allowlist.json"].
Proof. split; vm_compute; reflexivity. Qed.

Lemma permission_ask_passes_other_types_witness :
  type {| type := "edit"; metadata := JObj [("filepath", JStr "/w/x")] |}
    <> "external_directory" /\
  exists st',
    permission_ask Scenario.JSON_parse "/w/app/src" (Some "/home/u") None
      "/w/app/src" "/w/app"
      {| type := "edit"; metadata := JObj [("filepath", JStr "/w/x")] |}
      (Scenario.fresh
         [(Scenario.local_config, Scenario.config_text (Scenario.quoted "/w"))],
       {| status := "ask" |})
    = (Ok tt, (st', {| status := "ask" |})) /\
    cachedDirs st' = None /\
    fs st' = Scenario.disk
               [(Scenario.local_config,
                 Scenario.config_text (Scenario.quoted "/w"))] /\
    trace st' = [EvLogInfo (PermissionRequestType "edit");
                 EvLogInfo (SkippingNonExternal "edit")].
Proof.
  split; [discriminate|].
  apply (permission_ask_passes_other_types Scenario.JSON_parse "/w/app/src"
           (Some "/home/u") None "/w/app/src" "/w/app"
           {| type := "edit"; metadata := JObj [("filepath", JStr "/w/x")] |}
           (Scenario.fresh
              [(Scenario.local_config,
                Scenario.config_text (Scenario.quoted "/w"))])
           {| status := "ask" |}).
  discriminate.
Defined.

Lemma merge_order_independent_witness :
  Permutation [Scenario.global_config; Scenario.local_config]
              [Scenario.local_config; Scenario.global_config] /\
  exists m1 m2 st1 st2,
    let st := Scenario.fresh
      [(Scenario.global_config,
        Scenario.config_text (Scenario.quoted "/srv/shared" ++ ","
                              ++ Scenario.quoted "/w/projects"));
       (Scenario.local_config,
        Scenario.config_text (Scenario.quoted "/w/projects"))] in
    for_of [Scenario.global_config; Scenario.local_config]
      (load_config Scenario.JSON_parse) [] st = (Ok m1, st1) /\
    for_of [Scenario.local_config; Scenario.global_config]
      (load_config Scenario.JSON_parse) [] st = (Ok m2, st2) /\
    (forall s, In (JStr s) m1 <-> In (JStr s) m2) /\
    NoDup (strings_of m1) /\ NoDup (strings_of m2) /\
    Permutation (strings_of m1) (strings_of m2) /\
    (forall s, In (JStr s) m1 <->
               exists p,
                 In p [Scenario.global_config; Scenario.local_config] /\
                 In (JStr s) (contribution Scenario.JSON_parse (fs st) p)).
Proof.
  split; [apply perm_swap|].
  apply (merge_order_independent Scenario.JSON_parse
           [Scenario.global_config; Scenario.local_config]
           [Scenario.local_config; Scenario.global_config]).
  apply perm_swap.
Defined.

(** Where the hook does return: config discovery and merge never throw
    ([getAllowedDirectories_total]), and neither does the hook when the
    merged entries and the target path are strings. *)
Lemma permission_ask_returns_on_strings
    (JSON_parse : string -> option jsval) (cwd : string)
    (env_HOME env_USERPROFILE : option string) (directory worktree : string)
    (input : Permission) (st : state) (output : Output)
    (allowedDirs : list string) (st1 : state) :
  getAllowedDirectories JSON_parse env_HOME env_USERPROFILE directory worktree
    st = (Ok (map JStr allowedDirs), st1) ->
  (truthy (requested_dir input) = true ->
   exists p, requested_dir input = JStr p) ->
  fst (permission_ask JSON_parse cwd env_HOME env_USERPROFILE directory
         worktree input (st, output)) = Ok tt.
Proof.
  intros Hdirs Hpath. rewrite permission_ask_spec. cbn zeta.
  destruct (negb (String.eqb (type input) "external_directory"));
    [reflexivity|].
  destruct (truthy (requested_dir input)) eqn:Hp; [|reflexivity].
  cbn [negb].
  destruct (getAllowedDirectories_total JSON_parse env_HOME env_USERPROFILE
              directory worktree st) as (dirs & evs & Hst & Hframe).
  rewrite (Hframe (logged st [EvLogInfo (PermissionRequestType (type input))])
             eq_refl eq_refl).
  rewrite Hst in Hdirs. injection Hdirs as -> _.
  destruct (Hpath eq_refl) as (p & ->).
  rewrite isPathAllowed_strings. now destruct (existsb _ allowedDirs).
Qed.

(** C4.  Not every operation of the core completes without an uncaught
    error.  A config file whose [allowedDirectories] holds the number 42
    is loaded without complaint, and the entry reaches
    [path.resolve] inside [isPathAllowed], which throws: the hook ends
    with an uncaught TypeError instead of returning.  The same happens on
    a target path that is not a string, as soon as one directory is
    configured. *)
Theorem permission_ask_throws_on_non_string_entry :
  fst (Scenario.ask (Scenario.request "/w/other/file.ts")
         (Scenario.fresh [(Scenario.worktree_config, Scenario.config_text "42")])
         {| status := "ask" |})
  = Throw TypeError /\
  fst (Scenario.ask
         {| type := "external_directory";
            metadata := JObj [("filepath", JNum Scenario.forty_two)] |}
         (Scenario.fresh
            [(Scenario.worktree_config,
              Scenario.config_text (Scenario.quoted "/w/projects"))])
         {| status := "ask" |})
  = Throw TypeError.
Proof. split; vm_compute; reflexivity. Qed.

(** * Further properties *)

(** ** Path authorization: outcomes and errors *)

Lemma isPathAllowed_cons_other (cwd : string) (requestedPath v : jsval)
    (rest : list jsval) :
  (forall s, v <> JStr s) ->
  isPathAllowed cwd requestedPath (v :: rest) = Throw TypeError.
Proof.
  intros Hv. cbn [isPathAllowed]. now rewrite (resolve_not_string cwd v Hv).
Qed.

Lemma is_string_dec (v : jsval) : (exists s, v = JStr s) \/ (forall s, v <> JStr s).
Proof.
  destruct v; try (right; intros ? ?; discriminate). left. now eexists.
Qed.

(** X1.  What [isPathAllowed] does on a string path and an arbitrary list:
    it returns [true] exactly when the list starts with string entries
    that do not match, followed by a string entry that does; it returns
    [false] exactly when every entry is a string and none matches; and it
    throws, a TypeError, exactly when an entry that is not a string comes
    before any match. *)
Theorem isPathAllowed_outcome (cwd P : string) (D : list jsval) :
  let matches d := String.prefix (resolved cwd d) (resolved cwd P) in
  (isPathAllowed cwd (JStr P) D = Ok true <->
   exists D1 d rest,
     D = (map JStr D1 ++ JStr d :: rest)%list /\ matches d = true /\
     forall x, In x D1 -> matches x = false) /\
  (isPathAllowed cwd (JStr P) D = Ok false <->
   exists D1, D = map JStr D1 /\ forall x, In x D1 -> matches x = false) /\
  (forall e,
     isPathAllowed cwd (JStr P) D = Throw e <->
     e = TypeError /\
     exists D1 v rest,
       D = (map JStr D1 ++ v :: rest)%list /\ (forall s, v <> JStr s) /\
       forall x, In x D1 -> matches x = false).
Proof.
  cbn zeta. induction D as [|a D (IHt & IHf & IHe)].
  - cbn [isPathAllowed]. split; [|split].
    + split; [discriminate|]. intros (D1 & d & rest & H & _).
      now destruct D1.
    + split; [|reflexivity]. intros _. exists []. split; [reflexivity|].
      intros x [].
    + intros e. split; [discriminate|]. intros (_ & D1 & v & rest & H & _).
      now destruct D1.
  - destruct (is_string_dec a) as [(d & ->)|Ha].
    + rewrite isPathAllowed_cons.
      destruct (String.prefix (resolved cwd d) (resolved cwd P)) eqn:Hd.
      * split; [|split].
        -- split; [|reflexivity]. intros _. exists [], d, D.
           split; [reflexivity|]. split; [assumption|]. intros x [].
        -- split; [discriminate|]. intros (D1 & H & Hno).
           destruct D1 as [|x D1]; [discriminate|]. injection H as -> _.
           rewrite (Hno x (or_introl eq_refl)) in Hd. discriminate.
        -- intros e. split; [discriminate|].
           intros (_ & D1 & v & rest & H & Hv & Hno).
           destruct D1 as [|x D1]; cbn in H; injection H as H _.
           ++ now destruct (Hv d).
           ++ subst x. rewrite (Hno d (or_introl eq_refl)) in Hd. discriminate.
      * split; [|split].
        -- rewrite IHt. split.
           ++ intros (D1 & d' & rest & -> & Hm & Hno). exists (d :: D1), d', rest.
              split; [reflexivity|]. split; [assumption|].
              intros x [<-|Hx]; auto.
           ++ intros (D1 & d' & rest & H & Hm & Hno).
              destruct D1 as [|x D1]; cbn in H; injection H as H1 H2.
              ** subst d'. congruence.
              ** exists D1, d', rest. split; [assumption|]. split; [assumption|].
                 intros y Hy. apply Hno. now right.
        -- rewrite IHf. split.
           ++ intros (D1 & -> & Hno). exists (d :: D1). split; [reflexivity|].
              intros x [<-|Hx]; auto.
           ++ intros (D1 & H & Hno). destruct D1 as [|x D1]; [discriminate|].
              cbn in H. injection H as H1 H2. exists D1. split; [assumption|].
              intros y Hy. apply Hno. now right.
        -- intros e. rewrite IHe. split.
           ++ intros (-> & D1 & v & rest & -> & Hv & Hno). split; [reflexivity|].
              exists (d :: D1), v, rest. split; [reflexivity|].
              split; [assumption|]. intros x [<-|Hx]; auto.
           ++ intros (-> & D1 & v & rest & H & Hv & Hno). split; [reflexivity|].
              destruct D1 as [|x D1]; cbn in H; injection H as H1 H2.
              ** now destruct (Hv d).
              ** exists D1, v, rest. split; [assumption|]. split; [assumption|].
                 intros y Hy. apply Hno. now right.
    + rewrite (isPathAllowed_cons_other cwd (JStr P) a D Ha). split; [|split].
      * split; [discriminate|]. intros (D1 & d & rest & H & _).
        destruct D1 as [|x D1]; cbn in H; injection H as H _;
          now destruct (Ha _ H).
      * split; [discriminate|]. intros (D1 & H & _).
        destruct D1 as [|x D1]; [discriminate|]. cbn in H. injection H as H _.
        now destruct (Ha _ H).
      * intros e. split.
        -- intros H. injection H as <-. split; [reflexivity|].
           exists [], a, D. split; [reflexivity|]. split; [assumption|].
           intros x [].
        -- now intros (-> & _).
Qed.

(** X2.  A requested path that is not a string: on the empty list
    [isPathAllowed] still returns [false]; on any other list it throws a
    TypeError at the first entry, whatever that entry is. *)
Theorem isPathAllowed_non_string_request (cwd : string) (v : jsval)
    (D : list jsval) :
  (forall s, v <> JStr s) ->
  isPathAllowed cwd v D =
  match D with
  | [] => Ok false
  | _ :: _ => Throw TypeError
  end.
Proof.
  intros Hv. destruct D as [|a D]; [reflexivity|].
  cbn [isPathAllowed].
  destruct (is_string_dec a) as [(d & ->)|Ha].
  - now rewrite resolve_string, (resolve_not_string cwd v Hv).
  - now rewrite (resolve_not_string cwd a Ha).
Qed.

Lemma isPathAllowed_non_string_request_witness :
  (forall s, JBool true <> JStr s) /\
  isPathAllowed "/home/u" (JBool true) [JStr "/w/projects"] = Throw TypeError.
Proof.
  split; [intros s; discriminate|].
  apply (isPathAllowed_non_string_request "/home/u" (JBool true)
           [JStr "/w/projects"]).
  intros s. discriminate.
Defined.

(** X3.  On lists of strings approval is monotone: every path approved by
    a list is approved by every list that contains its entries, in any
    order and with any repetition. *)
Theorem isPathAllowed_monotone (cwd P : string) (D D' : list string) :
  incl D D' ->
  isPathAllowed cwd (JStr P) (map JStr D) = Ok true ->
  isPathAllowed cwd (JStr P) (map JStr D') = Ok true.
Proof.
  intros Hincl. rewrite !isPathAllowed_strings. intros H. injection H as H.
  f_equal. apply existsb_exists in H. destruct H as (d & Hin & Hd).
  apply existsb_exists. exists d. split; [now apply Hincl | assumption].
Qed.

Lemma isPathAllowed_monotone_witness :
  incl ["/w/projects"] ["/srv/shared"; "/w/projects"] /\
  isPathAllowed "/home/u" (JStr "/w/projects/app") (map JStr ["/w/projects"])
  = Ok true /\
  isPathAllowed "/home/u" (JStr "/w/projects/app")
    (map JStr ["/srv/shared"; "/w/projects"]) = Ok true.
Proof.
  assert (incl ["/w/projects"] ["/srv/shared"; "/w/projects"]) as Hincl.
  { intros x [<-|[]]. right. now left. }
  split; [exact Hincl|]. split; [reflexivity|].
  apply (isPathAllowed_monotone "/home/u" "/w/projects/app" ["/w/projects"]
           ["/srv/shared"; "/w/projects"] Hincl).
  reflexivity.
Defined.

(** ** Config merge: order of the set and shapes of a config *)

Lemma strings_of_Set_add_eq (set : list jsval) (v : jsval) :
  strings_of (Set_add set v) =
  match v with
  | JStr s => add_string (strings_of set) s
  | _ => strings_of set
  end.
Proof.
  destruct (is_string_dec v) as [(s & ->)|Hv].
  - unfold add_string.
    destruct (Set_add_str set s) as [[-> Hin]|[-> Hnin]];
      destruct (in_dec string_dec s (strings_of set)) as [Hs|Hs];
      rewrite ?strings_of_app; try reflexivity.
    + destruct Hs. now apply In_strings_of.
    + destruct Hnin. now apply In_strings_of.
  - rewrite (Set_add_other set v Hv). destruct v; try reflexivity.
    now destruct (Hv s).
Qed.

Lemma strings_of_fold_Set_add_eq (elems set : list jsval) :
  strings_of (fold_left Set_add elems set) =
  fold_left add_string (strings_of elems) (strings_of set).
Proof.
  revert set. induction elems as [|v elems IH]; intros set; [reflexivity|].
  cbn [fold_left]. rewrite IH, strings_of_Set_add_eq.
  now destruct v.
Qed.

Lemma fold_left_add_string_app (a b set : list string) :
  fold_left add_string (a ++ b) set =
  fold_left add_string b (fold_left add_string a set).
Proof. apply fold_left_app. Qed.

Lemma strings_of_merged_eq (JSON_parse : string -> option jsval)
    (fsys : FileSystem) (configFiles : list string) (allDirs : list jsval) :
  strings_of (merged JSON_parse fsys configFiles allDirs) =
  fold_left add_string
    (flat_map (fun p => strings_of (contribution JSON_parse fsys p))
       configFiles)
    (strings_of allDirs).
Proof.
  revert allDirs. unfold merged.
  induction configFiles as [|p ps IH]; intros allDirs; [reflexivity|].
  cbn [fold_left flat_map]. rewrite IH, strings_of_fold_Set_add_eq.
  now rewrite fold_left_add_string_app.
Qed.

(** Adding strings one by one keeps the first occurrence of each. *)
Lemma fold_left_add_string_nodup (l : list string) :
  fold_left add_string l [] = rev (nodup string_dec (rev l)).
Proof.
  induction l as [|s l IH] using rev_ind; [reflexivity|].
  rewrite fold_left_app, rev_app_distr. cbn [fold_left rev app nodup].
  rewrite IH. unfold add_string.
  destruct (in_dec string_dec s (rev (nodup string_dec (rev l)))) as [Hin|Hnin];
    destruct (in_dec string_dec s (rev l)) as [Hin'|Hnin']; cbn [rev];
    try reflexivity.
  - destruct Hnin'. apply in_rev in Hin. now apply nodup_In in Hin.
  - destruct Hnin. apply -> in_rev. now apply nodup_In.
Qed.

(** X4.  The order of the merged set: its strings are the string entries
    of the files, taken file by file in the order the files are loaded
    and entry by entry in the order of each array, every string at its
    first occurrence only.  No later file moves or overrides an entry of
    an earlier one. *)
Theorem merge_keeps_first_occurrences (JSON_parse : string -> option jsval)
    (configFiles : list string) (st : state) :
  exists m st',
    for_of configFiles (load_config JSON_parse) [] st = (Ok m, st') /\
    strings_of m =
    rev (nodup string_dec
           (rev (flat_map
                   (fun p => strings_of (contribution JSON_parse (fs st) p))
                   configFiles))).
Proof.
  do 2 eexists. split; [apply for_of_load_config|].
  rewrite strings_of_merged_eq. apply fold_left_add_string_nodup.
Qed.

(** X5.  What a config file of another shape does to the merge.  A text
    that parses to [null], or to an object whose [allowedDirectories] is
    truthy but not an array, makes the [try] block throw a TypeError: the
    file is read, one error is logged, the set stays as it was.  A text
    that parses to a boolean, number, string or array, or to an object
    whose [allowedDirectories] is falsy ([null], [false], 0, the empty
    string), counts as a config without directories: the file is read,
    nothing is logged, the set stays as it was. *)
Theorem load_config_other_shapes (JSON_parse : string -> option jsval)
    (allDirs : list jsval) (configPath content : string) (config : jsval)
    (st : state) :
  contents (fs st) configPath = Some content ->
  JSON_parse content = Some config ->
  (config = JNull \/
   (exists props,
      config = JObj props /\
      truthy (own_property "allowedDirectories" props) = true /\
      forall elems, own_property "allowedDirectories" props <> JArr elems) ->
   load_config JSON_parse allDirs configPath st =
   (Ok allDirs,
    logged st [EvReadFile configPath;
               EvLogError (ErrorReading configPath TypeError)])) /\
  ((forall props, config <> JObj props) /\ config <> JNull /\
   config <> JUndefined \/
   (exists props,
      config = JObj props /\
      truthy (own_property "allowedDirectories" props) = false) ->
   load_config JSON_parse allDirs configPath st =
   (Ok allDirs, logged st [EvReadFile configPath])).
Proof.
  intros Hc Hp. rewrite load_config_spec.
  unfold contribution, load_events, read_dirs. rewrite Hc, Hp. split.
  - intros [->|(props & -> & Ht & Hn)]; [reflexivity|].
    cbn [get_member]. unfold js_or. rewrite Ht.
    destruct (own_property "allowedDirectories" props) as [| | | | |elems|];
      try reflexivity.
    now destruct (Hn elems).
  - intros [(Hn & Hnull & Hund)|(props & -> & Hf)].
    + destruct config as [| | | | | |props]; try reflexivity; congruence.
    + cbn [get_member]. unfold js_or. rewrite Hf. reflexivity.
Qed.

(** ** Config discovery: candidates and where the walk ends *)

Lemma dirname_fixed_point (p : string) :
  NodePath.dirname p = p <-> p = "/" \/ p = ".".
Proof.
  split.
  - intros H. destruct (le_lt_dec (String.length p) 1) as [Hs|Hl].
    + rewrite (dirname_short p Hs) in H.
      destruct (String.eqb p "/"); auto.
    + pose proof (dirname_shorter p ltac:(lia)) as Hlen. rewrite H in Hlen. lia.
  - intros [->| ->]; reflexivity.
Qed.

Lemma dirname_keeps_root (p : string) :
  NodePath.isAbsolute (NodePath.dirname p) = NodePath.isAbsolute p.
Proof.
  unfold NodePath.dirname.
  destruct (NodePath.strlen p =? 0) eqn:Hlen.
  - destruct p; [reflexivity | discriminate Hlen].
  - pose proof (dirname_scan_bound p (String.length p - 1) true) as Hb.
    cbn zeta in Hb.
    set (e := NodePath.dirname_scan p (String.length p - 1) true) in *.
    destruct (e =? -1) eqn:E; [now destruct (NodePath.isAbsolute p)|].
    apply Z.eqb_neq in E. destruct Hb as [Hb|(H1 & _)]; [contradiction|].
    destruct (NodePath.isAbsolute p && (e =? 1)) eqn:E1.
    + apply andb_prop in E1. now rewrite (proj1 E1).
    + unfold NodePath.slice.
      replace (0 <? 0) with false by reflexivity.
      destruct (Z.ltb_spec e 0) as [?|_]; [lia|].
      destruct p as [|c p]; [discriminate Hlen|].
      assert (exists n, Z.to_nat
                (Z.max (Z.min e (NodePath.strlen (String c p))
                        - Z.min 0 (NodePath.strlen (String c p))) 0) = S n)
        as (n & ->).
      { unfold NodePath.strlen. cbn [String.length].
        exists (Z.to_nat (Z.min e (Z.of_nat (S (String.length p)))) - 1)%nat.
        lia. }
      replace (Z.to_nat (Z.min 0 (NodePath.strlen (String c p)))) with O
        by (unfold NodePath.strlen; lia).
      reflexivity.
Qed.

Lemma Climb_keeps_root (worktree dir : string) (dirs : list string) :
  Climb worktree dir dirs ->
  Forall (fun d => NodePath.isAbsolute d = NodePath.isAbsolute dir) dirs.
Proof.
  induction 1 as [dir E|dir NE R|dir dirs NE NR Hc IH].
  - now repeat constructor.
  - now repeat constructor.
  - constructor; [reflexivity|]. rewrite dirname_keeps_root in IH. exact IH.
Qed.

(** X6.  [findConfigFiles] never throws.  It tests, with one [fs.access]
    each and in this order, the two global candidates and then the config
    path of each directory of the ancestor walk, and returns those that
    exist, in the same order.  It reads no file, logs nothing and leaves
    the cache alone.  An empty HOME counts as unset, and with neither HOME
    nor USERPROFILE the global candidates are relative paths below a
    directory named ~. *)
Theorem findConfigFiles_existing_candidates
    (env_HOME env_USERPROFILE : option string) (directory worktree : string)
    (st : state) :
  (exists dirs st',
     Climb worktree directory dirs /\
     let candidates :=
       (global_config_paths env_HOME env_USERPROFILE
        ++ map config_path dirs)%list in
     findConfigFiles env_HOME env_USERPROFILE directory worktree st =
       (Ok (filter (exists_ (fs st)) candidates), st') /\
     cachedDirs st' = cachedDirs st /\
     fs st' = fs st /\
     trace st' = (trace st ++ map EvAccess candidates)%list) /\
  global_config_paths (Some "") env_USERPROFILE =
    global_config_paths None env_USERPROFILE /\
  global_config_paths env_HOME (Some "") = global_config_paths env_HOME None /\
  global_config_paths None None =
    ["~/.config/opencode/opencode-allowlist.json";
     "~/.local/share/opencode/config/opencode-allowlist.json"].
Proof.
  split; [|split; [reflexivity | split; [|reflexivity]]].
  - destruct (findConfigFiles_spec env_HOME env_USERPROFILE directory worktree st)
      as (dirs & Hc & Hr).
    exists dirs. eexists. split; [exact Hc|]. cbn zeta in *.
    split; [exact Hr|]. repeat split.
  - now destruct env_HOME as [[|? ?]|].
Qed.

(** X7.  Where the ancestor walk ends.  The last directory tested is the
    boundary, "/" or "."; these two are the only paths [path.dirname]
    leaves in place.  Every directory tested is absolute when the starting
    directory is, and relative when it is not; so from an absolute start
    the walk ends at the boundary or at "/", and from a relative start it
    ends at the boundary or at ".", without reaching the ancestors of the
    working directory.  Started at the boundary itself, the walk tests
    that one directory. *)
Theorem search_up_last_directory (worktree directory : string)
    (configFiles : list string) (st : state) :
  exists dirs before last,
    accesses_of (trace (snd (search_up worktree directory configFiles st))) =
      (accesses_of (trace st) ++ map config_path dirs)%list /\
    dirs = (before ++ [last])%list /\
    Forall (fun d => NodePath.isAbsolute d = NodePath.isAbsolute directory)
      dirs /\
    (last = worktree \/
     last = (if NodePath.isAbsolute directory then "/" else ".")) /\
    (directory = worktree -> dirs = [directory]).
Proof.
  destruct (search_up_spec worktree (climb directory + 1) directory
              configFiles st ltac:(lia)) as (dirs & Hc & _ & Hr).
  destruct (Climb_last _ _ _ Hc) as (before & last & Hd & Hlast).
  exists dirs, before, last. rewrite Hr. cbn [snd logged trace].
  split.
  { rewrite accesses_of_app. f_equal. clear.
    induction dirs as [|d dirs IH]; [reflexivity|]. cbn. now rewrite IH. }
  split; [exact Hd|].
  pose proof (Climb_keeps_root _ _ _ Hc) as Hall.
  split; [exact Hall|].
  split.
  - destruct Hlast as [H|H]; [now left|]. right.
    assert (In last dirs) as Hin
      by (rewrite Hd; apply in_or_app; right; now left).
    rewrite Forall_forall in Hall. specialize (Hall last Hin).
    apply dirname_fixed_point in H.
    destruct H as [->| ->]; rewrite <- Hall; reflexivity.
  - intros ->. inversion Hc; subst; try congruence.
Qed.

(** ** The hook: target path, cache and errors *)


Lemma Set_add_strings (set : list jsval) (v : jsval) :
  Forall (fun x => exists s, x = JStr s) set -> (exists s, v = JStr s) ->
  Forall (fun x => exists s, x = JStr s) (Set_add set v).
Proof.
  intros Hset (s & ->).
  destruct (Set_add_str set s) as [[-> _]|[-> _]]; [assumption|].
  apply Forall_app. split; [assumption|]. repeat constructor. now exists s.
Qed.

Lemma merged_strings (JSON_parse : string -> option jsval) (fsys : FileSystem)
    (configFiles : list string) (allDirs : list jsval) :
  (forall f v, In v (contribution JSON_parse fsys f) -> exists s, v = JStr s) ->
  Forall (fun x => exists s, x = JStr s) allDirs ->
  Forall (fun x => exists s, x = JStr s)
    (merged JSON_parse fsys configFiles allDirs).
Proof.
  intros Hc. revert allDirs. unfold merged.
  induction configFiles as [|p ps IH]; intros allDirs Hall; [exact Hall|].
  cbn [fold_left]. apply IH.
  pose proof (Hc p) as Hp. revert allDirs Hall.
  induction (contribution JSON_parse fsys p) as [|v elems IHe];
    intros allDirs Hall; [exact Hall|].
  cbn [fold_left]. apply IHe.
  - intros x Hx. apply Hp. now right.
  - apply Set_add_strings; [assumption|]. apply Hp. now left.
Qed.

Lemma all_strings_map (l : list jsval) :
  Forall (fun x => exists s, x = JStr s) l -> l = map JStr (strings_of l).
Proof.
  induction 1 as [|x l (s & ->) _ IH]; [reflexivity|].
  cbn. now rewrite <- IH.
Qed.

(** X8.  A request of type "external_directory" without a usable target
    path is left to the host: when [metadata] is not an object, or has
    neither a truthy [parentDir] nor a truthy [filepath] (absent, [null],
    the empty string), the hook returns after its first log line.  It does
    not look for config files, the cache stays as it was, and [output] is
    untouched. *)
Theorem permission_ask_without_target
    (JSON_parse : string -> option jsval) (cwd : string)
    (env_HOME env_USERPROFILE : option string) (directory worktree : string)
    (input : Permission) (st : state) (output : Output) :
  type input = "external_directory" ->
  (forall props, metadata input <> JObj props) \/
  (exists props,
     metadata input = JObj props /\
     truthy (own_property "parentDir" props) = false /\
     truthy (own_property "filepath" props) = false) ->
  permission_ask JSON_parse cwd env_HOME env_USERPROFILE directory worktree
    input (st, output) =
  (Ok tt,
   (logged st [EvLogInfo (PermissionRequestType "external_directory")],
    output)).
Proof.
  intros Ht Hm. rewrite permission_ask_spec. cbn zeta. rewrite Ht.
  cbn [String.eqb Ascii.eqb Bool.eqb negb].
  assert (truthy (requested_dir input) = false) as ->; [|reflexivity].
  unfold requested_dir, js_or.
  destruct Hm as [Hn|(props & -> & Hp & Hf)].
  - destruct (metadata input); try reflexivity. now destruct (Hn props).
  - cbn [get_member_opt]. now rewrite Hp, Hf.
Qed.

(** X9.  Which field names the target: a truthy [parentDir] wins and
    [filepath] is not looked at; [filepath] is used when [parentDir] is
    absent or falsy.  Two requests of the same type that agree on the
    field that counts get the same answer, the same store and the same
    output. *)
Theorem permission_ask_prefers_parentDir
    (JSON_parse : string -> option jsval) (cwd : string)
    (env_HOME env_USERPROFILE : option string) (directory worktree : string)
    (ty : string) (props1 props2 : list (string * jsval))
    (st : state) (output : Output) :
  (truthy (own_property "parentDir" props1) = true /\
   own_property "parentDir" props2 = own_property "parentDir" props1) \/
  (truthy (own_property "parentDir" props1) = false /\
   truthy (own_property "parentDir" props2) = false /\
   own_property "filepath" props2 = own_property "filepath" props1) ->
  permission_ask JSON_parse cwd env_HOME env_USERPROFILE directory worktree
    {| type := ty; metadata := JObj props1 |} (st, output) =
  permission_ask JSON_parse cwd env_HOME env_USERPROFILE directory worktree
    {| type := ty; metadata := JObj props2 |} (st, output).
Proof.
  intros H. rewrite !permission_ask_spec. cbn zeta. cbn [type].
  assert (requested_dir {| type := ty; metadata := JObj props2 |} =
          requested_dir {| type := ty; metadata := JObj props1 |}) as ->;
    [|reflexivity].
  unfold requested_dir, js_or. cbn [metadata get_member_opt].
  destruct H as [(H1 & H2)|(H1 & H2 & H3)].
  - now rewrite H2, H1.
  - now rewrite H1, H2, H3.
Qed.


(** X11.  Once the cache is filled the hook decides from the cache alone:
    run in two stores that hold the same cached list, whatever their file
    systems and traces, it gives the same answer and the same output and
    adds the same events, none of them an [fs.access] or [fs.readFile].
    Edits to the config files do not change a decision. *)
Theorem permission_ask_decides_from_cache
    (JSON_parse : string -> option jsval) (cwd : string)
    (env_HOME env_USERPROFILE : option string) (directory worktree : string)
    (input : Permission) (dirs : list jsval) (st1 st2 : state)
    (output : Output) :
  cachedDirs st1 = Some dirs -> cachedDirs st2 = Some dirs ->
  exists r output' evs,
    permission_ask JSON_parse cwd env_HOME env_USERPROFILE directory worktree
      input (st1, output) = (r, (logged st1 evs, output')) /\
    permission_ask JSON_parse cwd env_HOME env_USERPROFILE directory worktree
      input (st2, output) = (r, (logged st2 evs, output')) /\
    accesses_of evs = [] /\ reads_of evs = [].
Proof.
  intros H1 H2. rewrite !permission_ask_spec. cbn zeta.
  destruct (negb (String.eqb (type input) "external_directory")).
  { do 3 eexists. rewrite !logged_logged. repeat split. }
  destruct (negb (truthy (requested_dir input))).
  { do 3 eexists. repeat split. }
  rewrite !(getAllowedDirectories_cached _ _ _ _ _ _ dirs) by assumption.
  destruct (isPathAllowed cwd (requested_dir input) dirs) as [[|]|e];
    do 3 eexists; rewrite ?logged_logged; repeat split.
Qed.

(** X12.  The first request, from the disk to the decision.  With an
    empty cache, a request of type "external_directory" for a non-empty
    string path [P], and config files whose entries are all strings, the
    hook returns; afterwards the cache holds the set merged from the
    config files the locator found, and [output.status] has been set to
    "allow" if the normalized [P] starts with the normalized form of an
    entry of one of these files, and [output] is untouched if not. *)
Theorem permission_ask_first_request
    (JSON_parse : string -> option jsval) (cwd : string)
    (env_HOME env_USERPROFILE : option string) (directory worktree : string)
    (input : Permission) (P : string) (st : state) (output : Output) :
  cachedDirs st = None ->
  type input = "external_directory" ->
  requested_dir input = JStr P -> P <> "" ->
  (forall f v, In v (contribution JSON_parse (fs st) f) ->
               exists s, v = JStr s) ->
  exists configFiles st0 st' output',
    findConfigFiles env_HOME env_USERPROFILE directory worktree st =
      (Ok configFiles, st0) /\
    permission_ask JSON_parse cwd env_HOME env_USERPROFILE directory worktree
      input (st, output) = (Ok tt, (st', output')) /\
    cachedDirs st' = Some (merged JSON_parse (fs st) configFiles []) /\
    let approved :=
      exists f d suffix,
        In f configFiles /\
        In (JStr d) (contribution JSON_parse (fs st) f) /\
        resolved cwd P = resolved cwd d ++ suffix in
    (approved -> output' = {| status := "allow" |}) /\
    (~ approved -> output' = output).
Proof.
  intros Hnone Ht Hp Hne Hstr.
  destruct (getAllowedDirectories_first JSON_parse env_HOME env_USERPROFILE
              directory worktree st Hnone)
    as (configFiles & st0 & evs0 & Hf & Hg & _).
  destruct (getAllowedDirectories_total JSON_parse env_HOME env_USERPROFILE
              directory worktree st) as (dirs & evs & Hst & Hframe).
  assert (dirs = merged JSON_parse (fs st) configFiles []) as Hdirs
    by congruence.
  clear Hg. exists configFiles, st0.
  rewrite permission_ask_spec. cbn zeta. rewrite Ht.
  cbn [String.eqb Ascii.eqb Bool.eqb negb]. rewrite Hp.
  assert (truthy (JStr P) = true) as ->.
  { cbn. destruct (String.eqb_spec P ""); [contradiction|reflexivity]. }
  cbn [negb].
  rewrite (Hframe (logged st [EvLogInfo (PermissionRequestType
                                          "external_directory")])
             eq_refl eq_refl).
  pose proof (merged_strings JSON_parse (fs st) configFiles [] Hstr
                (Forall_nil _)) as Hall.
  rewrite <- Hdirs in Hall. rewrite (all_strings_map dirs Hall).
  rewrite isPathAllowed_strings.
  assert (existsb (fun d => String.prefix (resolved cwd d) (resolved cwd P))
            (strings_of dirs) = true <->
          exists f d suffix,
            In f configFiles /\
            In (JStr d) (contribution JSON_parse (fs st) f) /\
            resolved cwd P = resolved cwd d ++ suffix) as Hiff.
  { rewrite existsb_exists. split.
    - intros (d & Hin & Hd). rewrite Hdirs in Hin.
      apply (strings_of_merged JSON_parse (fs st) configFiles []) in Hin.
      destruct Hin as [[]|(f & Hf' & Hc)].
      apply prefix_append in Hd. destruct Hd as (suffix & Hd).
      now exists f, d, suffix.
    - intros (f & d & suffix & Hf' & Hc & Hd). exists d. split.
      + rewrite Hdirs.
        apply (strings_of_merged JSON_parse (fs st) configFiles []).
        right. now exists f.
      + apply prefix_append. now exists suffix. }
  destruct (existsb _ (strings_of dirs)); do 2 eexists;
    (split; [exact Hf|]); (split; [reflexivity|]);
    (split; [unfold logged, cached_as; cbn [cachedDirs];
             now rewrite <- Hdirs, <- (all_strings_map dirs Hall)|]);
    cbn zeta; split; intros H; try reflexivity.
  - destruct H. now apply Hiff.
  - apply Hiff in H. discriminate.
Qed.



(** X15.  Two entries with a wide reach, for an absolute working
    directory.  The entry "/" approves every string path.  The empty
    string as an entry stands for the working directory: it approves
    exactly what the working directory as an entry approves. *)
Theorem isPathAllowed_root_and_empty_entries (cwd P : string)
    (D : list string) :
  NodePath.isAbsolute cwd = true ->
  (In "/" D -> isPathAllowed cwd (JStr P) (map JStr D) = Ok true) /\
  (forall D1 D2,
     isPathAllowed cwd (JStr P) (map JStr (D1 ++ "" :: D2)) =
     isPathAllowed cwd (JStr P) (map JStr (D1 ++ cwd :: D2))).
Proof.
  intros Habs.
  assert (cwd <> "") as Hne by (intros ->; discriminate Habs).
  assert ((NodePath.strlen cwd =? 0) = false) as Hlen.
  { destruct cwd; [contradiction|reflexivity]. }
  split.
  - intros Hin. rewrite isPathAllowed_strings. f_equal.
    apply existsb_exists. exists "/". split; [assumption|].
    apply prefix_append.
    assert (resolved cwd "/" = "/") as -> by reflexivity.
    unfold resolved, NodePath.resolve. cbn [rev app NodePath.resolve_loop].
    destruct (NodePath.strlen P =? 0).
    + rewrite Hlen, Habs. now eexists.
    + destruct (NodePath.isAbsolute P); [now eexists|].
      rewrite Hlen, Habs. now eexists.
  - intros D1 D2. rewrite !isPathAllowed_strings. f_equal.
    rewrite !existsb_app. cbn [existsb].
    assert (resolved cwd "" = resolved cwd cwd) as ->; [|reflexivity].
    unfold resolved, NodePath.resolve. cbn [rev app NodePath.resolve_loop].
    replace (NodePath.strlen "" =? 0) with true by reflexivity.
    now rewrite Hlen, Habs.
Qed.

(** ** Normalization: below a directory, and trailing separators *)

Module PathFacts.
Import NodePath.

Lemma normalizeString_run path allow :
  normalizeString path allow = res (ns_run path allow (S (String.length path))).
Proof. reflexivity. Qed.

Lemma ns_run_S path allow n :
  ns_run path allow (S n) = normalizeString_body path allow (ns_run path allow n) (Z.of_nat n).
Proof.
  unfold ns_run. rewrite seq_S, map_app, fold_left_app. reflexivity.
Qed.

Lemma substring_append_left (pre r : string) (a n : nat) :
  (a + n <= String.length pre)%nat ->
  String.substring a n (pre ++ r) = String.substring a n pre.
Proof.
  revert a n. induction pre as [|c pre IH]; intros a n H; cbn in *.
  - assert (a = 0 /\ n = 0)%nat as [-> ->] by lia. now destruct r.
  - destruct a as [|a].
    + destruct n as [|n]; [reflexivity|]. f_equal. apply IH. lia.
    + apply IH. lia.
Qed.

Lemma string_length_app (a b : string) : String.length (a ++ b) = (String.length a + String.length b)%nat.
Proof. induction a; cbn; congruence. Qed.

Lemma slice_append_left (pre r : string) (a b : Z) :
  0 <= a <= b -> b <= strlen pre ->
  slice (pre ++ r) a b = slice pre a b.
Proof.
  intros Ha Hb. unfold slice, strlen in *. rewrite string_length_app.
  destruct (Z.ltb_spec a 0); [lia|]. destruct (Z.ltb_spec b 0); [lia|].
  rewrite !Z.min_l by lia. apply substring_append_left. lia.
Qed.

Lemma body_agree (p1 p2 : string) allow v i :
  (i <? strlen p1) = true -> (i <? strlen p2) = true ->
  String.get (Z.to_nat i) p1 = String.get (Z.to_nat i) p2 ->
  slice p1 (lastSlash v + 1) i = slice p2 (lastSlash v + 1) i ->
  normalizeString_body p1 allow v i = normalizeString_body p2 allow v i.
Proof.
  intros H1 H2 H3 H4. unfold normalizeString_body. rewrite H1, H2, H3, H4. reflexivity.
Qed.

Lemma body_lastSlash_bound path allow v (n : nat) :
  -1 <= lastSlash v < Z.of_nat n ->
  -1 <= lastSlash (normalizeString_body path allow v (Z.of_nat n)) < Z.of_nat (S n).
Proof.
  intros H. unfold normalizeString_body.
  repeat match goal with
  | |- context [if ?b then _ else _] => destruct b
  end; cbn [lastSlash]; lia.
Qed.

Lemma ns_run_lastSlash path allow n :
  -1 <= lastSlash (ns_run path allow n) < Z.of_nat n.
Proof.
  induction n as [|n IH]; [cbn; lia|].
  rewrite ns_run_S. now apply body_lastSlash_bound.
Qed.

Lemma ns_run_append (pre r : string) allow (n : nat) :
  (n <= String.length pre)%nat ->
  ns_run (pre ++ r) allow n = ns_run pre allow n.
Proof.
  induction n as [|n IH]; intros Hn; [reflexivity|].
  rewrite !ns_run_S, IH by lia.
  pose proof (ns_run_lastSlash pre allow n) as Hl.
  apply body_agree.
  - unfold strlen. rewrite string_length_app. apply Z.ltb_lt. lia.
  - unfold strlen. apply Z.ltb_lt. lia.
  - rewrite Nat2Z.id. symmetry. apply append_correct1. lia.
  - apply slice_append_left; unfold strlen; lia.
Qed.

Lemma get_some_lt (path : string) (n : nat) (c : ascii) :
  String.get n path = Some c -> (n < String.length path)%nat.
Proof.
  revert n. induction path as [|a path IH]; intros n H; [discriminate|].
  destruct n as [|n]; cbn in *; [lia|]. specialize (IH n H). lia.
Qed.

(** The step on a character of the path. *)
Lemma body_char path allow v (n : nat) (c : ascii) :
  String.get n path = Some c ->
  let v' := normalizeString_body path allow v (Z.of_nat n) in
  code v' = c /\
  (c = "/"%char -> lastSlash v' = Z.of_nat n /\ dots v' = 0) /\
  (c <> "/"%char ->
   res v' = res v /\
   dots v' = if Ascii.eqb c "."%char && negb (dots v =? -1) then dots v + 1 else -1).
Proof.
  intros Hget. cbn zeta. unfold normalizeString_body.
  assert ((Z.of_nat n <? strlen path) = true) as ->.
  { apply Z.ltb_lt. unfold strlen. apply get_some_lt in Hget. lia. }
  cbn [negb andb]. rewrite Nat2Z.id, Hget.
  unfold isPosixPathSeparator, CHAR_FORWARD_SLASH, CHAR_DOT.
  destruct (Ascii.eqb_spec c "/"%char) as [->|Hc].
  - repeat match goal with
    | |- context [if ?b then _ else _] => destruct b
    end; cbn [code lastSlash dots]; repeat split; congruence.
  - destruct (Ascii.eqb c "."%char && negb (dots v =? -1));
      cbn [code lastSlash dots res]; repeat split; congruence.
Qed.

Lemma prefix_app_r (r0 r s : string) :
  String.prefix r0 r = true -> String.prefix r0 (r ++ s) = true.
Proof.
  intros H. apply prefix_append in H. destruct H as (t & ->).
  apply prefix_append. exists (t ++ s).
  induction r0; cbn; congruence.
Qed.

Lemma strlen_zero (s : string) : (0 <? strlen s) = false -> s = "".
Proof.
  destruct s; [reflexivity|]. unfold strlen. cbn [String.length].
  intros H. apply Z.ltb_ge in H. lia.
Qed.

(** Unless a ".." segment ends at this step, the result only grows. *)
Lemma body_extends path allow v (i : Z) (r0 : string) :
  dots v <> 2 ->
  String.prefix r0 (res v) = true ->
  String.prefix r0 (res (normalizeString_body path allow v i)) = true.
Proof.
  intros Hd Hp. unfold normalizeString_body.
  destruct (negb (i <? strlen path) && isPosixPathSeparator (code v)); [assumption|].
  match goal with |- context [isPosixPathSeparator ?c] => destruct (isPosixPathSeparator c) end.
  - destruct ((lastSlash v =? i - 1) || (dots v =? 1)); [assumption|].
    destruct (Z.eqb_spec (dots v) 2) as [|_]; [contradiction|].
    cbn [res].
    destruct (0 <? strlen (res v)) eqn:E.
    + now apply prefix_app_r.
    + apply strlen_zero in E. rewrite E in Hp. destruct r0; [|discriminate Hp].
      now destruct (slice path (lastSlash v + 1) i).
  - match goal with |- context [if ?b then _ else _] => destruct b end; assumption.
Qed.

Lemma string_app_assoc (a b c : string) : (a ++ b) ++ c = a ++ (b ++ c).
Proof. induction a; cbn; congruence. Qed.

Lemma substring_two (x : string) (j : nat) (a b : ascii) :
  String.get j x = Some a -> String.get (S j) x = Some b ->
  String.substring j 2 x = String a (String b "").
Proof.
  revert j. induction x as [|c x IH]; intros j Ha Hb; [discriminate|].
  destruct j as [|j].
  - cbn in Ha, Hb. injection Ha as ->. destruct x as [|c' x]; [discriminate|].
    cbn in Hb. injection Hb as ->. cbn. now destruct x.
  - cbn in Ha, Hb |- *. now apply IH.
Qed.

Lemma no_dot_dot (x : string) (j : nat) :
  String.index 0 ".." x = None ->
  ~ (String.get j x = Some "."%char /\ String.get (S j) x = Some "."%char).
Proof.
  intros Hi (Ha & Hb).
  apply (index_correct3 0 j ".." x Hi); [discriminate | lia |].
  cbn [String.length]. now apply substring_two.
Qed.

Lemma no_dot_dot_slash (x : string) (j : nat) :
  String.index 0 ".." x = None ->
  ~ (String.get j (x ++ "/") = Some "."%char /\
     String.get (S j) (x ++ "/") = Some "."%char).
Proof.
  intros Hi (Ha & Hb).
  destruct (lt_dec (S j) (String.length x)) as [Hlt|Hge].
  - rewrite <- append_correct1 in Ha, Hb by lia. now apply (no_dot_dot x j Hi).
  - pose proof (get_some_lt _ _ _ Hb) as Hlen. rewrite string_length_app in Hlen.
    cbn [String.length] in Hlen.
    assert (S j = 0 + String.length x)%nat as E by lia.
    rewrite E, <- append_correct2 in Hb. discriminate.
Qed.

Lemma get_lt_some (path : string) (n : nat) :
  (n < String.length path)%nat -> exists c, String.get n path = Some c.
Proof.
  revert n. induction path as [|a path IH]; intros n H; cbn in H; [lia|].
  destruct n as [|n]; cbn; [now eexists|]. apply IH. lia.
Qed.

(** Normalizing a path that continues, after a separator, with text free
    of "..", only adds to the normal form of the path up to the
    separator. *)
Lemma normalizeString_below (q x : string) (allow : bool) :
  String.index 0 ".." x = None ->
  String.prefix (normalizeString (q ++ "/") allow)
    (normalizeString ((q ++ "/") ++ (x ++ "/")) allow) = true.
Proof.
  intros Hx.
  set (pre := q ++ "/"). set (r := x ++ "/"). set (L := String.length pre).
  assert (L = S (String.length q)) as HL.
  { unfold L, pre. rewrite string_length_app. cbn. lia. }
  set (S1 := ns_run pre allow L).
  assert (code S1 = "/"%char /\ dots S1 = 0) as (Hcode & Hdots).
  { unfold S1. rewrite HL, ns_run_S.
    assert (String.get (String.length q) pre = Some "/"%char) as Hg.
    { unfold pre. replace (String.length q) with (0 + String.length q)%nat by lia.
      now rewrite <- append_correct2. }
    destruct (body_char pre allow (ns_run pre allow (String.length q))
                (String.length q) "/"%char Hg) as (Hc & Hs & _).
    split; [exact Hc | now apply Hs]. }
  assert (normalizeString pre allow = res S1) as ->.
  { rewrite normalizeString_run, ns_run_S. fold L. fold S1.
    unfold normalizeString_body.
    assert ((Z.of_nat L <? strlen pre) = false) as ->
      by (apply Z.ltb_ge; unfold strlen, L; lia).
    now rewrite Hcode. }
  rewrite normalizeString_run, ns_run_S.
  assert (forall k, (L + k <= String.length (pre ++ r))%nat ->
            let v := ns_run (pre ++ r) allow (L + k) in
            String.prefix (res S1) (res v) = true /\
            -1 <= dots v <= 1 /\
            (dots v = 1 ->
             exists j, k = S j /\ String.get j r = Some "."%char)) as Hinv.
  { induction k as [|k IH]; intros Hk; cbn zeta.
    - rewrite Nat.add_0_r, ns_run_append by (unfold L; lia). fold S1.
      split; [apply prefix_refl|]. rewrite Hdots. split; [lia|discriminate].
    - replace (L + S k)%nat with (S (L + k)) by lia. rewrite ns_run_S.
      destruct (IH ltac:(lia)) as (Hp & Hd & Hdot). cbn zeta in *.
      set (v := ns_run (pre ++ r) allow (L + k)) in *.
      destruct (get_lt_some (pre ++ r) (L + k) ltac:(lia)) as (c & Hc).
      assert (String.get k r = Some c) as Hcr.
      { rewrite (append_correct2 pre r k). fold L.
        now replace (k + L)%nat with (L + k)%nat by lia. }
      destruct (body_char (pre ++ r) allow v (L + k) c Hc) as (_ & Hs & Ho).
      split; [apply body_extends; [lia|assumption]|].
      destruct (Ascii.eqb_spec c "/"%char) as [->|Hnc].
      + destruct (Hs eq_refl) as (_ & ->). split; [lia|discriminate].
      + destruct (Ho Hnc) as (_ & ->).
        destruct (Ascii.eqb_spec c "."%char) as [->|Hnd]; cbn [andb].
        * destruct (Z.eqb_spec (dots v) (-1)) as [|Hm]; cbn [negb];
            [split; [lia|discriminate]|].
          assert (dots v = 0) as ->.
          { destruct (Z.eq_dec (dots v) 1) as [E|E]; [|lia].
            destruct (Hdot E) as (j & -> & Hj).
            destruct (no_dot_dot_slash x j Hx). now split. }
          split; [lia|]. intros _. now exists k.
        * split; [lia|discriminate]. }
  assert (String.length (pre ++ r) = (L + String.length r)%nat) as Hlen
    by (rewrite string_length_app; reflexivity).
  destruct (Hinv (String.length r) ltac:(lia)) as (Hp & Hd & _).
  cbn zeta in Hp, Hd. rewrite <- Hlen in Hp, Hd.
  apply body_extends; [lia|assumption].
Qed.

(** A path below an allowed directory, with no ".." in the part below,
    normalizes to an extension of the normalized directory. *)
Lemma resolved_below (cwd d x : string) :
  d <> "" ->
  NodePath.isAbsolute d = true \/ NodePath.isAbsolute cwd = true ->
  String.index 0 ".." x = None ->
  String.prefix (resolved cwd d) (resolved cwd (d ++ "/" ++ x)) = true.
Proof.
  intros Hd Habs Hx.
  destruct d as [|c d]; [contradiction|].
  unfold resolved, resolve. cbn [rev app resolve_loop].
  assert ((strlen (String c d) =? 0) = false) as -> by reflexivity.
  assert ((strlen (String c d ++ "/" ++ x) =? 0) = false) as -> by reflexivity.
  assert (isAbsolute (String c d ++ "/" ++ x) = isAbsolute (String c d)) as ->
    by reflexivity.
  assert ((String c d ++ "/" ++ x) ++ "/" ++ "" = (String c d ++ "/") ++ (x ++ "/")) as E1.
  { rewrite !string_app_assoc. reflexivity. }
  assert (String c d ++ "/" ++ "" = String c d ++ "/") as E2 by reflexivity.
  rewrite E1, E2.
  destruct (isAbsolute (String c d)) eqn:Hda.
  - cbn [negb]. change (String.prefix ("/" ++ ?a) ("/" ++ ?b)) with (String.prefix a b).
    cbn [String.append String.prefix]. destruct (ascii_dec "/" "/"); [|congruence].
    exact (normalizeString_below (String c d) x false Hx).
  - destruct Habs as [Habs|Habs]; [discriminate|].
    destruct cwd as [|c' cwd]; [discriminate|].
    assert ((strlen (String c' cwd) =? 0) = false) as -> by reflexivity.
    rewrite Habs. cbn [negb].
    replace (String c' cwd ++ "/" ++ (String c d ++ "/") ++ x ++ "/")
      with (((String c' cwd ++ "/" ++ String c d) ++ "/") ++ (x ++ "/"))
      by (rewrite !string_app_assoc; reflexivity).
    replace (String c' cwd ++ "/" ++ String c d ++ "/")
      with ((String c' cwd ++ "/" ++ String c d) ++ "/")
      by (rewrite !string_app_assoc; reflexivity).
    cbn [String.append String.prefix].
    destruct (ascii_dec "/" "/"); [|congruence].
    exact (normalizeString_below (String c' cwd ++ "/" ++ String c d) x false
             Hx).
Qed.

Lemma body_repeated_slash path allow v (n : nat) :
  String.get n path = Some "/"%char ->
  lastSlash v = Z.of_nat n - 1 ->
  res (normalizeString_body path allow v (Z.of_nat n)) = res v.
Proof.
  intros Hget Hl. unfold normalizeString_body.
  assert ((Z.of_nat n <? strlen path) = true) as ->.
  { apply Z.ltb_lt. unfold strlen. apply get_some_lt in Hget. lia. }
  cbn [negb andb]. rewrite Nat2Z.id, Hget.
  unfold isPosixPathSeparator, CHAR_FORWARD_SLASH.
  cbn [Ascii.eqb Bool.eqb]. rewrite Hl, Z.eqb_refl. reflexivity.
Qed.

(** A second separator at the end of a path does not change its normal
    form. *)
Lemma normalizeString_trailing_slash (q : string) (allow : bool) :
  normalizeString ((q ++ "/") ++ "/") allow = normalizeString (q ++ "/") allow.
Proof.
  set (pre := q ++ "/"). set (L := String.length pre).
  assert (L = S (String.length q)) as HL.
  { unfold L, pre. rewrite string_length_app. cbn. lia. }
  set (S1 := ns_run pre allow L).
  assert (String.get (String.length q) pre = Some "/"%char) as Hg.
  { unfold pre. replace (String.length q) with (0 + String.length q)%nat by lia.
    now rewrite <- append_correct2. }
  assert (code S1 = "/"%char /\ lastSlash S1 = Z.of_nat L - 1) as (Hcode & Hls).
  { unfold S1. rewrite HL, ns_run_S.
    destruct (body_char pre allow (ns_run pre allow (String.length q))
                (String.length q) "/"%char Hg) as (Hc & Hs & _).
    split; [exact Hc|]. destruct (Hs eq_refl) as (-> & _). lia. }
  assert (normalizeString pre allow = res S1) as ->.
  { rewrite normalizeString_run, ns_run_S. fold L. fold S1.
    unfold normalizeString_body.
    assert ((Z.of_nat L <? strlen pre) = false) as ->
      by (apply Z.ltb_ge; unfold strlen, L; lia).
    now rewrite Hcode. }
  assert (String.length (pre ++ "/") = S L) as Hlen
    by (rewrite string_length_app; cbn; fold L; lia).
  assert (String.get L (pre ++ "/") = Some "/"%char) as Hg2.
  { replace L with (0 + String.length pre)%nat by (unfold L; lia).
    now rewrite <- append_correct2. }
  rewrite normalizeString_run, Hlen, ns_run_S.
  set (S2 := ns_run (pre ++ "/") allow (S L)).
  assert (code S2 = "/"%char /\ res S2 = res S1) as (Hcode2 & Hres2).
  { unfold S2. rewrite ns_run_S, ns_run_append by (unfold L; lia). fold S1.
    destruct (body_char (pre ++ "/") allow S1 L "/"%char Hg2) as (Hc & _).
    split; [exact Hc|]. now apply body_repeated_slash. }
  unfold normalizeString_body.
  assert ((Z.of_nat (S L) <? strlen (pre ++ "/")) = false) as ->
    by (apply Z.ltb_ge; unfold strlen; lia).
  now rewrite Hcode2.
Qed.

Lemma resolved_trailing_slash (cwd d : string) :
  d <> "" -> resolved cwd (d ++ "/") = resolved cwd d.
Proof.
  intros Hd. destruct d as [|c d]; [contradiction|].
  unfold resolved, resolve. cbn [rev app resolve_loop].
  assert ((strlen (String c d) =? 0) = false) as -> by reflexivity.
  assert ((strlen (String c d ++ "/") =? 0) = false) as -> by reflexivity.
  assert (isAbsolute (String c d ++ "/") = isAbsolute (String c d)) as ->
    by reflexivity.
  assert ((String c d ++ "/") ++ "/" ++ "" = (String c d ++ "/") ++ "/") as ->
    by reflexivity.
  assert (String c d ++ "/" ++ "" = String c d ++ "/") as -> by reflexivity.
  destruct (isAbsolute (String c d)).
  - now rewrite normalizeString_trailing_slash.
  - destruct (strlen cwd =? 0); [now rewrite normalizeString_trailing_slash|].
    replace (cwd ++ "/" ++ (String c d ++ "/") ++ "/")
      with (((cwd ++ "/" ++ String c d) ++ "/") ++ "/")
      by (rewrite !string_app_assoc; reflexivity).
    replace (cwd ++ "/" ++ String c d ++ "/")
      with ((cwd ++ "/" ++ String c d) ++ "/")
      by (rewrite !string_app_assoc; reflexivity).
    rewrite normalizeString_trailing_slash.
    now destruct (isAbsolute cwd).
Qed.

End PathFacts.

(** X16.  What lies below an allowed directory is approved: for an entry
    [d] that is not empty, with [d] or the working directory absolute,
    every path [d/x] whose part [x] below the directory contains no ".."
    is approved. *)
Theorem isPathAllowed_below_allowed_dir (cwd d x : string) (D : list string) :
  In d D -> d <> "" ->
  NodePath.isAbsolute d = true \/ NodePath.isAbsolute cwd = true ->
  String.index 0 ".." x = None ->
  isPathAllowed cwd (JStr (d ++ "/" ++ x)) (map JStr D) = Ok true.
Proof.
  intros Hin Hd Habs Hx. rewrite isPathAllowed_strings. f_equal.
  apply existsb_exists. exists d. split; [assumption|].
  now apply PathFacts.resolved_below.
Qed.

Lemma isPathAllowed_below_allowed_dir_witness :
  In "/w/projects" ["/srv/shared"; "/w/projects"] /\
  "/w/projects" <> "" /\
  (NodePath.isAbsolute "/w/projects" = true \/
   NodePath.isAbsolute "/home/u" = true) /\
  String.index 0 ".." "app/src/file.ts" = None /\
  isPathAllowed "/home/u" (JStr ("/w/projects" ++ "/" ++ "app/src/file.ts"))
    (map JStr ["/srv/shared"; "/w/projects"]) = Ok true.
Proof.
  assert (In "/w/projects" ["/srv/shared"; "/w/projects"]) as Hin
    by (right; now left).
  assert ("/w/projects" <> "") as Hne by discriminate.
  split; [exact Hin|]. split; [exact Hne|]. split; [now left|].
  split; [reflexivity|].
  apply (isPathAllowed_below_allowed_dir "/home/u" "/w/projects"
           "app/src/file.ts" ["/srv/shared"; "/w/projects"] Hin Hne).
  - now left.
  - reflexivity.
Defined.

(** X17.  A trailing separator is normalized away: an entry [d/] approves
    exactly what the entry [d] approves, and a request for [P/] is decided
    like the request for [P].  In particular an entry written with a
    trailing separator still approves the siblings that share its
    prefix. *)
Theorem isPathAllowed_trailing_separator (cwd P d : string)
    (D1 D2 : list string) :
  d <> "" -> P <> "" ->
  isPathAllowed cwd (JStr P) (map JStr (D1 ++ (d ++ "/") :: D2)) =
  isPathAllowed cwd (JStr P) (map JStr (D1 ++ d :: D2)) /\
  isPathAllowed cwd (JStr (P ++ "/")) (map JStr (D1 ++ d :: D2)) =
  isPathAllowed cwd (JStr P) (map JStr (D1 ++ d :: D2)).
Proof.
  intros Hd HP. rewrite !isPathAllowed_strings. split; f_equal.
  - rewrite !existsb_app. cbn [existsb].
    now rewrite (PathFacts.resolved_trailing_slash cwd d Hd).
  - now rewrite (PathFacts.resolved_trailing_slash cwd P HP).
Qed.

Lemma isPathAllowed_trailing_separator_witness :
  "/a/b" <> "" /\ "/a/bc/file" <> "" /\
  isPathAllowed "/home/u" (JStr "/a/bc/file")
    (map JStr ([] ++ ("/a/b" ++ "/") :: [])) =
  isPathAllowed "/home/u" (JStr "/a/bc/file") (map JStr ([] ++ "/a/b" :: [])) /\
  isPathAllowed "/home/u" (JStr ("/a/bc/file" ++ "/"))
    (map JStr ([] ++ "/a/b" :: [])) =
  isPathAllowed "/home/u" (JStr "/a/bc/file") (map JStr ([] ++ "/a/b" :: [])).
Proof.
  assert ("/a/b" <> "") as H1 by discriminate.
  assert ("/a/bc/file" <> "") as H2 by discriminate.
  split; [exact H1|]. split; [exact H2|].
  exact (isPathAllowed_trailing_separator "/home/u" "/a/bc/file" "/a/b" [] []
           H1 H2).
Defined.

Lemma isPathAllowed_root_and_empty_entries_witness :
  NodePath.isAbsolute "/home/u" = true /\
  (In "/" ["/"] ->
   isPathAllowed "/home/u" (JStr "notes/todo.txt") (map JStr ["/"]) = Ok true) /\
  (forall D1 D2,
     isPathAllowed "/home/u" (JStr "notes/todo.txt")
       (map JStr (D1 ++ "" :: D2)) =
     isPathAllowed "/home/u" (JStr "notes/todo.txt")
       (map JStr (D1 ++ "/home/u" :: D2))).
Proof.
  split; [reflexivity|].
  apply (isPathAllowed_root_and_empty_entries "/home/u" "notes/todo.txt" ["/"]).
  reflexivity.
Defined.

Lemma load_config_other_shapes_witness :
  let st := Scenario.fresh
    [(Scenario.local_config,
      "{" ++ Scenario.quoted "allowedDirectories" ++ ":42}")] in
  let config := JObj [("allowedDirectories", JNum Scenario.forty_two)] in
  contents (fs st) Scenario.local_config =
    Some ("{" ++ Scenario.quoted "allowedDirectories" ++ ":42}") /\
  Scenario.JSON_parse ("{" ++ Scenario.quoted "allowedDirectories" ++ ":42}") =
    Some config /\
  load_config Scenario.JSON_parse [JStr "/srv/shared"] Scenario.local_config st =
  (Ok [JStr "/srv/shared"],
   logged st [EvReadFile Scenario.local_config;
              EvLogError (ErrorReading Scenario.local_config TypeError)]).
Proof.
  cbn zeta. split; [reflexivity|]. split; [reflexivity|].
  apply (load_config_other_shapes Scenario.JSON_parse [JStr "/srv/shared"]
           Scenario.local_config
           ("{" ++ Scenario.quoted "allowedDirectories" ++ ":42}")
           (JObj [("allowedDirectories", JNum Scenario.forty_two)])
           (Scenario.fresh
              [(Scenario.local_config,
                "{" ++ Scenario.quoted "allowedDirectories" ++ ":42}")])
           eq_refl eq_refl).
  right. exists [("allowedDirectories", JNum Scenario.forty_two)].
  split; [reflexivity|]. split; [reflexivity|]. intros elems. discriminate.
Defined.

Lemma permission_ask_without_target_witness :
  let input := {| type := "external_directory";
                  metadata := JObj [("parentDir", JStr "")] |} in
  let st := Scenario.fresh
    [(Scenario.local_config,
      Scenario.config_text (Scenario.quoted "/w/projects"))] in
  type input = "external_directory" /\
  ((forall props, metadata input <> JObj props) \/
   (exists props,
      metadata input = JObj props /\
      truthy (own_property "parentDir" props) = false /\
      truthy (own_property "filepath" props) = false)) /\
  Scenario.ask input st {| status := "ask" |} =
  (Ok tt,
   (logged st [EvLogInfo (PermissionRequestType "external_directory")],
    {| status := "ask" |})).
Proof.
  cbn zeta.
  assert ((forall props,
             metadata {| type := "external_directory";
                         metadata := JObj [("parentDir", JStr "")] |}
             <> JObj props) \/
          (exists props,
             metadata {| type := "external_directory";
                         metadata := JObj [("parentDir", JStr "")] |}
             = JObj props /\
             truthy (own_property "parentDir" props) = false /\
             truthy (own_property "filepath" props) = false)) as Hm.
  { right. exists [("parentDir", JStr "")]. repeat split. }
  split; [reflexivity|]. split; [exact Hm|].
  exact (permission_ask_without_target Scenario.JSON_parse "/w/app/src"
           (Some "/home/u") None "/w/app/src" "/w/app"
           {| type := "external_directory";
              metadata := JObj [("parentDir", JStr "")] |}
           (Scenario.fresh
              [(Scenario.local_config,
                Scenario.config_text (Scenario.quoted "/w/projects"))])
           {| status := "ask" |} eq_refl Hm).
Defined.

Lemma permission_ask_prefers_parentDir_witness :
  let props1 := [("parentDir", JStr "/w/projects/app");
                 ("filepath", JStr "/etc/passwd")] in
  let props2 := [("parentDir", JStr "/w/projects/app")] in
  let st := Scenario.fresh
    [(Scenario.local_config,
      Scenario.config_text (Scenario.quoted "/w/projects"))] in
  ((truthy (own_property "parentDir" props1) = true /\
    own_property "parentDir" props2 = own_property "parentDir" props1) \/
   (truthy (own_property "parentDir" props1) = false /\
    truthy (own_property "parentDir" props2) = false /\
    own_property "filepath" props2 = own_property "filepath" props1)) /\
  Scenario.ask {| type := "external_directory"; metadata := JObj props1 |}
    st {| status := "ask" |} =
  Scenario.ask {| type := "external_directory"; metadata := JObj props2 |}
    st {| status := "ask" |}.
Proof.
  cbn zeta.
  assert ((truthy (own_property "parentDir"
                     [("parentDir", JStr "/w/projects/app");
                      ("filepath", JStr "/etc/passwd")]) = true /\
           own_property "parentDir" [("parentDir", JStr "/w/projects/app")] =
           own_property "parentDir"
             [("parentDir", JStr "/w/projects/app");
              ("filepath", JStr "/etc/passwd")]) \/
          (truthy (own_property "parentDir"
                     [("parentDir", JStr "/w/projects/app");
                      ("filepath", JStr "/etc/passwd")]) = false /\
           truthy (own_property "parentDir"
                     [("parentDir", JStr "/w/projects/app")]) = false /\
           own_property "filepath" [("parentDir", JStr "/w/projects/app")] =
           own_property "filepath"
             [("parentDir", JStr "/w/projects/app");
              ("filepath", JStr "/etc/passwd")])) as H.
  { left. split; reflexivity. }
  split; [exact H|].
  exact (permission_ask_prefers_parentDir Scenario.JSON_parse "/w/app/src"
           (Some "/home/u") None "/w/app/src" "/w/app" "external_directory"
           [("parentDir", JStr "/w/projects/app");
            ("filepath", JStr "/etc/passwd")]
           [("parentDir", JStr "/w/projects/app")]
           (Scenario.fresh
              [(Scenario.local_config,
                Scenario.config_text (Scenario.quoted "/w/projects"))])
           {| status := "ask" |} H).
Defined.


Lemma permission_ask_decides_from_cache_witness :
  let st1 := {| cachedDirs := Some [JStr "/w/projects"];
                fs := Scenario.disk []; trace := [] |} in
  let st2 := {| cachedDirs := Some [JStr "/w/projects"];
                fs := Scenario.disk
                        [(Scenario.local_config,
                          Scenario.config_text (Scenario.quoted "/srv/shared"))];
                trace := [EvAccess Scenario.local_config] |} in
  cachedDirs st1 = Some [JStr "/w/projects"] /\
  cachedDirs st2 = Some [JStr "/w/projects"] /\
  exists r output' evs,
    Scenario.ask (Scenario.request "/srv/shared/x") st1 {| status := "ask" |} =
      (r, (logged st1 evs, output')) /\
    Scenario.ask (Scenario.request "/srv/shared/x") st2 {| status := "ask" |} =
      (r, (logged st2 evs, output')) /\
    accesses_of evs = [] /\ reads_of evs = [].
Proof.
  cbn zeta. split; [reflexivity|]. split; [reflexivity|].
  exact (permission_ask_decides_from_cache Scenario.JSON_parse "/w/app/src"
           (Some "/home/u") None "/w/app/src" "/w/app"
           (Scenario.request "/srv/shared/x") [JStr "/w/projects"]
           {| cachedDirs := Some [JStr "/w/projects"];
              fs := Scenario.disk []; trace := [] |}
           {| cachedDirs := Some [JStr "/w/projects"];
              fs := Scenario.disk
                      [(Scenario.local_config,
                        Scenario.config_text (Scenario.quoted "/srv/shared"))];
              trace := [EvAccess Scenario.local_config] |}
           {| status := "ask" |} eq_refl eq_refl).
Defined.

Lemma scenario_entries_are_strings (f : string) (v : jsval) :
  In v (contribution Scenario.JSON_parse
          (Scenario.disk
             [(Scenario.local_config,
               Scenario.config_text (Scenario.quoted "/w/projects"))]) f) ->
  exists s, v = JStr s.
Proof.
  unfold contribution, read_dirs, Scenario.disk. cbn [contents find fst snd].
  destruct (String.eqb Scenario.local_config f); cbn [option_map].
  - vm_compute. intros [<-|[]]. now eexists.
  - intros [].
Defined.

Lemma permission_ask_first_request_witness :
  let st := Scenario.fresh
    [(Scenario.local_config,
      Scenario.config_text (Scenario.quoted "/w/projects"))] in
  let input := Scenario.request "/w/projects/app/file.ts" in
  cachedDirs st = None /\
  type input = "external_directory" /\
  requested_dir input = JStr "/w/projects/app/file.ts" /\
  "/w/projects/app/file.ts" <> "" /\
  (forall f v, In v (contribution Scenario.JSON_parse (fs st) f) ->
               exists s, v = JStr s) /\
  exists configFiles st0 st' output',
    findConfigFiles (Some "/home/u") None "/w/app/src" "/w/app" st =
      (Ok configFiles, st0) /\
    Scenario.ask input st {| status := "ask" |} = (Ok tt, (st', output')) /\
    cachedDirs st' =
      Some (merged Scenario.JSON_parse (fs st) configFiles []) /\
    ((exists f d suffix,
        In f configFiles /\
        In (JStr d) (contribution Scenario.JSON_parse (fs st) f) /\
        resolved "/w/app/src" "/w/projects/app/file.ts" =
        resolved "/w/app/src" d ++ suffix) ->
     output' = {| status := "allow" |}) /\
    (~ (exists f d suffix,
          In f configFiles /\
          In (JStr d) (contribution Scenario.JSON_parse (fs st) f) /\
          resolved "/w/app/src" "/w/projects/app/file.ts" =
          resolved "/w/app/src" d ++ suffix) ->
     output' = {| status := "ask" |}).
Proof.
  cbn zeta.
  assert ("/w/projects/app/file.ts" <> "") as Hne by discriminate.
  split; [reflexivity|]. split; [reflexivity|]. split; [reflexivity|].
  split; [exact Hne|]. split; [exact scenario_entries_are_strings|].
  exact (permission_ask_first_request Scenario.JSON_parse "/w/app/src"
           (Some "/home/u") None "/w/app/src" "/w/app"
           (Scenario.request "/w/projects/app/file.ts")
           "/w/projects/app/file.ts"
           (Scenario.fresh
              [(Scenario.local_config,
                Scenario.config_text (Scenario.quoted "/w/projects"))])
           {| status := "ask" |} eq_refl eq_refl eq_refl Hne
           scenario_entries_are_strings).
Defined.
